(** * Visual workflow editor (WorkflowEditor v2.0): a shallow embedding

    The editor script turns a site profile's linear action list into
    draggable step markers ("balls") laid over the live page, and turns
    the markers back into an action list on save.  This file embeds the
    script's data and functions and states its properties.

    Conventions of the embedding:
    - a JavaScript number is an exact rational ([num]); IEEE rounding is
      not modelled;
    - a JavaScript value that is a string or [undefined] is an
      [option string];
    - code that can raise is in the [Completion] monad, and the script's
      [try]/[catch] is [try_catch];
    - the page (document, viewport, browser built-ins) is a [Page] record
      read by the script; what the script itself adds to the page (marker
      nodes, picker overlay, timers) lives in [World]. *)

From Stdlib Require Import Ascii String QArith Qcanon Qround.
From stdpp Require Import gmap strings list numbers pretty.

Open Scope string_scope.

(** ** JavaScript values *)

Abbreviation num := Qc (only parsing).

Definition num_of_Z (z : Z) : num := Q2Qc (inject_Z z).
Definition num_of_nat (n : nat) : num := num_of_Z (Z.of_nat n).

Definition Math_max (a b : num) : num := if decide (a < b)%Qc then b else a.
Definition Math_min (a b : num) : num := if decide (a < b)%Qc then a else b.

(** The [value] slot of an action record: [null], a number or a string. *)
Inductive JsValue : Type :=
| VNull
| VNum (q : num)
| VStr (s : string).

Global Instance JsValue_eq_dec : EqDecision JsValue.
Proof. solve_decision. Defined.

(** Truthiness of a string-or-undefined: [undefined] and the empty string
    are falsy. *)
Definition truthy (s : option string) : bool :=
  match s with
  | Some s => negb (String.eqb s EmptyString)
  | None => false
  end.

(** [s || d] on a string-or-undefined. *)
Definition or_else (s : option string) (d : string) : string :=
  match s with
  | Some s => if String.eqb s EmptyString then d else s
  | None => d
  end.

(** ** Completions: normal return or a raised exception *)

Inductive Completion (A : Type) : Type :=
| Normal (a : A)
| Throw (e : string).
Arguments Normal {A} a.
Arguments Throw {A} e.

Definition cbind {A B} (c : Completion A) (k : A -> Completion B) : Completion B :=
  match c with
  | Normal a => k a
  | Throw e => Throw e
  end.

Notation "x <- c ;;; k" := (cbind c (fun x => k))
  (at level 100, c at next level, right associativity).

Definition try_catch {A} (body : Completion A) (handler : string -> Completion A)
  : Completion A :=
  match body with
  | Normal a => Normal a
  | Throw e => handler e
  end.

(** ** The page *)

Record Rect : Type := mkRect {
  left : num;
  top : num;
  width : num;
  height : num
}.

(** A DOM element as the script reads it.  [node] is the element's
    identity; [className] is [None] when the property is not a string
    (an SVG element). *)
Record Element : Type := mkElement {
  node : nat;
  el_id : string;
  data_testid : option string;
  className : option string;
  tagName : string;
  getBoundingClientRect : Rect
}.

Global Instance Rect_eq_dec : EqDecision Rect.
Proof. solve_decision. Defined.
Global Instance Element_eq_dec : EqDecision Element.
Proof. solve_decision. Defined.

(** The browser side.  [elements] is the document in document order;
    [querySelectorAll] either raises (a selector syntax error) or returns
    the matching elements in document order. *)
Record Page : Type := mkPage {
  elements : list Element;
  body : Element;
  querySelectorAll : string -> Completion (list Element);
  CSS_escape : string -> string;
  innerWidth : num;
  innerHeight : num;
  hostname : string;
  parseFloat_string : string -> option num
}.

(** [parseFloat(v)]; [None] is NaN. *)
Definition parseFloat (pg : Page) (v : JsValue) : option num :=
  match v with
  | VNull => None
  | VNum q => Some q
  | VStr s => parseFloat_string pg s
  end.

(** [parseFloat(v) || 0]: NaN and 0 both give 0. *)
Definition parseFloat_or_0 (pg : Page) (v : JsValue) : num :=
  match parseFloat pg v with
  | Some q => q
  | None => 0%Qc
  end.

(** What the DOM promises about an ID selector: [#] followed by the escaped
    id selects exactly the elements carrying that id, in document order. *)
Definition dom_id_selector (pg : Page) : Prop :=
  forall i : string,
    i <> EmptyString ->
    querySelectorAll pg ("#" +:+ CSS_escape pg i)
    = Normal (List.filter (fun e => String.eqb (el_id e) i) (elements pg)).


(** ** Element locator *)

Definition findElement (pg : Page) (selector : option string)
  : Completion (option Element) :=
  if negb (truthy selector) then Normal None
  else
    try_catch
      (elems <- querySelectorAll pg (or_else selector EmptyString) ;;;
       Normal (if (0 <? length elems)%nat
               then elems !! (length elems - 1)%nat
               else None))
      (fun _ => Normal None).

Record Point : Type := mkPoint { px : num; py : num }.

Definition two : num := num_of_Z 2.

Definition getElementCenter (pg : Page) (element : option Element) : Point :=
  match element with
  | None => mkPoint (innerWidth pg / two)%Qc (innerHeight pg / two)%Qc
  | Some e =>
      let rect := getBoundingClientRect e in
      mkPoint (left rect + width rect / two)%Qc (top rect + height rect / two)%Qc
  end.

(** ** Selector synthesizer *)

Definition startsWith (s p : string) : bool := String.prefix p s.

(** [s.split(' ')]. *)
Fixpoint split_go (cur : string) (s : string) : list string :=
  match s with
  | EmptyString => [String.rev cur]
  | String c s' =>
      if Ascii.eqb c " "%char then String.rev cur :: split_go EmptyString s'
      else split_go (String c cur) s'
  end.
Definition split_space (s : string) : list string := split_go EmptyString s.

Definition lower_ascii (c : ascii) : ascii :=
  let n := nat_of_ascii c in
  if ((65 <=? n) && (n <=? 90))%nat then ascii_of_nat (n + 32) else c.

Fixpoint toLowerCase (s : string) : string :=
  match s with
  | EmptyString => EmptyString
  | String c s' => String (lower_ascii c) (toLowerCase s')
  end.

Definition dquote : string := String "034"%char EmptyString.

Definition qsa_length_is_1 (pg : Page) (sel : string) : Completion bool :=
  elems <- querySelectorAll pg sel ;;;
  Normal (length elems =? 1)%nat.

Definition generateSelector (pg : Page) (element : option Element)
  : Completion string :=
  match element with
  | None => Normal "body"
  | Some element =>
      if decide (node element = node (body pg)) then Normal "body"
      else
        (* id *)
        idsel <-
          (if negb (String.eqb (el_id element) EmptyString)
              && negb (startsWith (el_id element) "wfe-")
           then
             let sel := "#" +:+ CSS_escape pg (el_id element) in
             one <- qsa_length_is_1 pg sel ;;;
             Normal (if one : bool then Some sel else None)
           else Normal None) ;;;
        match idsel with
        | Some sel => Normal sel
        | None =>
            (* data-testid *)
            tsel <-
              (if truthy (data_testid element) then
                 let sel := "[data-testid=" +:+ dquote
                            +:+ or_else (data_testid element) EmptyString
                            +:+ dquote +:+ "]" in
                 one <- qsa_length_is_1 pg sel ;;;
                 Normal (if one : bool then Some sel else None)
               else Normal None) ;;;
            match tsel with
            | Some sel => Normal sel
            | None =>
                (* tag + first two non-editor classes *)
                csel <-
                  (if truthy (className element) then
                     let classes :=
                       take 2 (List.filter
                                 (fun c => negb (String.eqb c EmptyString)
                                           && negb (startsWith c "wfe-"))
                                 (split_space (or_else (className element) EmptyString))) in
                     if (0 <? length classes)%nat then
                       let sel := toLowerCase (tagName element) +:+ "."
                                  +:+ String.concat "." classes in
                       one <- qsa_length_is_1 pg sel ;;;
                       Normal (if one : bool then Some sel else None)
                     else Normal None
                   else Normal None) ;;;
                match csel with
                | Some sel => Normal sel
                | None => Normal (toLowerCase (tagName element))
                end
            end
        end
  end.

(** ** Step markers: class [Ball] *)

Inductive BallType : Type := CLICK | INPUT | READ.

Global Instance BallType_eq_dec : EqDecision BallType.
Proof. solve_decision. Defined.

(** [ball.config] after the constructor merged the defaults. *)
Record Config : Type := mkConfig {
  delay_ms : num;
  random_radius : num;
  text : string;
  selector : option string;
  targetKey : option string
}.

(** The object literal handed to [addBall] as [config]: every key may be
    absent; [selector] may be present and [undefined]. *)
Record StepConfig : Type := mkStepConfig {
  sc_delay_ms : option num;
  sc_random_radius : option num;
  sc_text : option string;
  sc_selector : option (option string);
  sc_targetKey : option string
}.

(** [{}] *)
Definition empty_config : StepConfig := mkStepConfig None None None None None.

(** [config.selector] read from the literal. *)
Definition sc_selector_value (c : StepConfig) : option string :=
  match sc_selector c with
  | Some v => v
  | None => None
  end.

Definition thousand : num := num_of_Z 1000.
Definition ten : num := num_of_Z 10.
Definition px14 : num := num_of_Z 14.
Definition px28 : num := num_of_Z 28.
Definition px40 : num := num_of_Z 40.
Definition px100 : num := num_of_Z 100.

(** A template literal prints [undefined] for a missing string. *)
Definition template (s : option string) : string :=
  match s with
  | Some s => s
  | None => "undefined"
  end.

Module Ball.

Record t : Type := mk {
  id : nat;
  type : BallType;
  seq : nat;
  x : num;
  y : num;
  config : Config;
  isDragging : bool;
  offset : Point;
  isWarning : bool;
  warningMessage : string
}.

Record Opts : Type := mkOpts {
  o_type : BallType;
  o_seq : nat;
  o_x : option num;
  o_y : option num;
  o_config : StepConfig
}.

(** [new Ball(opts)]; [fresh] is the identity of the new object. *)
Definition constructor (fresh : nat) (opts : Opts) : t :=
  let c := o_config opts in
  {| id := fresh;
     type := o_type opts;
     seq := o_seq opts;
     x := default px100 (o_x opts);
     y := default px100 (o_y opts);
     config :=
       {| delay_ms :=
            default (if (o_seq opts =? 1)%nat then 0%Qc else thousand)
                    (sc_delay_ms c);
          random_radius := default ten (sc_random_radius c);
          text := default EmptyString (sc_text c);
          selector :=
            match sc_selector c with
            | Some v => v
            | None => Some EmptyString
            end;
          targetKey := sc_targetKey c |};
     isDragging := false;
     offset := mkPoint 0%Qc 0%Qc;
     isWarning := false;
     warningMessage := EmptyString |}.

Definition move (pg : Page) (b : t) (nx ny : num) : t :=
  mk (id b) (type b) (seq b)
     (Math_max 0%Qc (Math_min (innerWidth pg - px28)%Qc nx))
     (Math_max 0%Qc (Math_min (innerHeight pg - px28)%Qc ny))
     (config b) (isDragging b) (offset b) (isWarning b) (warningMessage b).

Definition updateSeq (b : t) (n : nat) : t :=
  let c := config b in
  mk (id b) (type b) n (x b) (y b)
     (if (n =? 1)%nat
      then mkConfig 0%Qc (random_radius c) (text c) (selector c) (targetKey c)
      else c)
     (isDragging b) (offset b) (isWarning b) (warningMessage b).

Definition locateToElement (pg : Page) (b : t) : Completion t :=
  target <- findElement pg (selector (config b)) ;;;
  match target with
  | Some e =>
      let pos := getElementCenter pg (Some e) in
      Normal (move pg b (px pos - px14)%Qc (py pos - px14)%Qc)
  | None => Normal b
  end.

Definition setWarning (b : t) (message : string) : t :=
  mk (id b) (type b) (seq b) (x b) (y b) (config b) (isDragging b)
     (offset b) true message.

Definition clearWarning (b : t) : t :=
  updateSeq
    (mk (id b) (type b) (seq b) (x b) (y b) (config b) (isDragging b)
        (offset b) false EmptyString)
    (seq b).

End Ball.

(** ** Action records and the site profile *)

Record Step : Type := mkStep {
  action : string;
  target : string;
  optional : bool;
  value : JsValue
}.

Global Instance Step_eq_dec : EqDecision Step.
Proof. solve_decision. Defined.

Record SiteConfig : Type := mkSiteConfig {
  selectors : option (gmap string string);
  workflow : option (list Step)
}.

(** ** The editor's own state *)

(** Nodes the script appends to [document.body]. *)
Inductive EditorNode : Type :=
| NBall (ball : nat)
| NOverlay (n : nat)
| NTip (n : nat).

Global Instance EditorNode_eq_dec : EqDecision EditorNode.
Proof. solve_decision. Defined.

(** Callbacks handed to [setTimeout]. *)
Inductive Task : Type :=
| TStartPicker (ball : nat)
| TAlert (msg : string).

Record Timer : Type := mkTimer { task : Task; delay : nat }.

(** The [state] object, the picker's module-level variables
    ([pickOverlay], [pickTip], [highlighted]) and what the script has put
    into the browser: its nodes under [document.body], whether
    [onPickKey] is registered on the document, the pending timers, the
    alerts shown so far.  [fresh] numbers new objects. *)
Record World : Type := mkWorld {
  steps : list Ball.t;
  siteConfig : option SiteConfig;
  isPickingElement : bool;
  pickingCallback : option nat;
  isVisible : bool;
  pickOverlay : option nat;
  pickTip : option nat;
  highlighted : option nat;
  body_nodes : list EditorNode;
  keydown_onPickKey : bool;
  timers : list Timer;
  alerts : list string;
  fresh : nat
}.

Definition initial_world : World :=
  mkWorld [] None false None true None None None [] false [] [] 0.

Definition set_steps (w : World) (s : list Ball.t) : World :=
  mkWorld s (siteConfig w) (isPickingElement w) (pickingCallback w)
          (isVisible w) (pickOverlay w) (pickTip w) (highlighted w)
          (body_nodes w) (keydown_onPickKey w) (timers w) (alerts w) (fresh w).

Definition set_siteConfig (w : World) (c : option SiteConfig) : World :=
  mkWorld (steps w) c (isPickingElement w) (pickingCallback w)
          (isVisible w) (pickOverlay w) (pickTip w) (highlighted w)
          (body_nodes w) (keydown_onPickKey w) (timers w) (alerts w) (fresh w).

Definition set_body_nodes (w : World) (ns : list EditorNode) : World :=
  mkWorld (steps w) (siteConfig w) (isPickingElement w) (pickingCallback w)
          (isVisible w) (pickOverlay w) (pickTip w) (highlighted w)
          ns (keydown_onPickKey w) (timers w) (alerts w) (fresh w).

Definition set_timers (w : World) (ts : list Timer) : World :=
  mkWorld (steps w) (siteConfig w) (isPickingElement w) (pickingCallback w)
          (isVisible w) (pickOverlay w) (pickTip w) (highlighted w)
          (body_nodes w) (keydown_onPickKey w) ts (alerts w) (fresh w).

Definition set_alerts (w : World) (a : list string) : World :=
  mkWorld (steps w) (siteConfig w) (isPickingElement w) (pickingCallback w)
          (isVisible w) (pickOverlay w) (pickTip w) (highlighted w)
          (body_nodes w) (keydown_onPickKey w) (timers w) a (fresh w).

(** [setTimeout(task, delay)] *)
Definition setTimeout (w : World) (t : Task) (d : nat) : World :=
  set_timers w (timers w ++ [mkTimer t d]).

(** [node.remove()]: detaches the node if it is attached. *)
Definition remove_node (n : EditorNode) (ns : list EditorNode) : list EditorNode :=
  List.filter (fun m => negb (bool_decide (m = n))) ns.

(** ** Interactive picker *)

Definition startPicker (ball : nat) (w : World) : World :=
  let o := fresh w in
  let t := S (fresh w) in
  mkWorld (steps w) (siteConfig w)
          true (Some ball)
          (isVisible w)
          (Some o) (Some t) (highlighted w)
          (body_nodes w ++ [NOverlay o; NTip t])
          true
          (timers w) (alerts w) (S (S (fresh w))).

Definition endPicker (w : World) : World :=
  let ns1 := match pickOverlay w with
             | Some o => remove_node (NOverlay o) (body_nodes w)
             | None => body_nodes w
             end in
  let ns2 := match pickTip w with
             | Some t => remove_node (NTip t) ns1
             | None => ns1
             end in
  mkWorld (steps w) (siteConfig w)
          false None
          (isVisible w)
          (pickOverlay w) (pickTip w) None
          ns2
          false
          (timers w) (alerts w) (fresh w).

Definition onPickKey (key : string) (w : World) : World :=
  if String.eqb key "Escape" then endPicker w else w.

(** [hideEditor]: hides the toolbar and the markers and ends the picker
    (the context menu is not part of this model). *)
Definition hideEditor (w : World) : World :=
  let w := endPicker w in
  mkWorld (steps w) (siteConfig w) (isPickingElement w) (pickingCallback w)
          false (pickOverlay w) (pickTip w) (highlighted w)
          (body_nodes w) (keydown_onPickKey w) (timers w) (alerts w) (fresh w).

(** The capture overlays currently attached to the document. *)
Definition overlays (w : World) : list nat :=
  omap (fun n => match n with NOverlay o => Some o | _ => None end) (body_nodes w).

(** The browser runs the pending timer that is due first.  The timers
    here are all set within one task, so that is the one with the smallest
    delay, and the one set earliest among equals. *)
Fixpoint min_delay (ts : list Timer) : option nat :=
  match ts with
  | [] => None
  | t :: ts' =>
      match min_delay ts' with
      | None => Some (delay t)
      | Some d => Some (Nat.min (delay t) d)
      end
  end.

Fixpoint take_due (d : nat) (ts : list Timer) : option (Timer * list Timer) :=
  match ts with
  | [] => None
  | t :: ts' =>
      if (delay t =? d)%nat then Some (t, ts')
      else match take_due d ts' with
           | Some (u, rest) => Some (u, t :: rest)
           | None => None
           end
  end.

Definition fireTimer (w : World) : World :=
  match min_delay (timers w) with
  | None => w
  | Some d =>
      match take_due d (timers w) with
      | None => w
      | Some (t, rest) =>
          let w := set_timers w rest in
          match task t with
          | TStartPicker b => startPicker b w
          | TAlert msg => set_alerts w (alerts w ++ [msg])
          end
      end
  end.

(** ** Step collection *)

Definition addBall (pg : Page) (type : BallType) (config : StepConfig) (w : World)
  : Completion (Ball.t * World) :=
  let seq := (length (steps w) + 1)%nat in
  (* default position: staggered *)
  let x0 := (px100 + (num_of_nat seq - 1) * px40)%Qc in
  let y0 := (innerHeight pg / two)%Qc in
  located <-
    (if truthy (sc_selector_value config) then
       target <- findElement pg (sc_selector_value config) ;;;
       match target with
       | Some e =>
           let pos := getElementCenter pg (Some e) in
           Normal ((px pos - px14)%Qc, (py pos - px14)%Qc, false)
       | None => Normal (x0, y0, true)
       end
     else Normal (x0, y0, false)) ;;;
  let '(x, y, elementNotFound) := located in
  let ball :=
    Ball.constructor (fresh w) (Ball.mkOpts type seq (Some x) (Some y) config) in
  (* the marker is rendered into the page and pushed; a warning set
     afterwards lands on the same object *)
  let ball :=
    if elementNotFound : bool
    then Ball.setWarning ball
           ("元素不存在: " +:+ template (sc_selector_value config))
    else ball in
  let w := mkWorld (steps w ++ [ball]) (siteConfig w) (isPickingElement w)
                   (pickingCallback w) (isVisible w) (pickOverlay w) (pickTip w)
                   (highlighted w) (body_nodes w ++ [NBall (Ball.id ball)])
                   (keydown_onPickKey w) (timers w) (alerts w) (S (fresh w)) in
  (* a READ marker without a selector opens the picker shortly after *)
  let w :=
    if bool_decide (type = READ) && negb (truthy (sc_selector_value config))
    then setTimeout w (TStartPicker (Ball.id ball)) 100
    else w in
  Normal (ball, w).

(** [state.steps.indexOf(ball)]: objects are compared by identity. *)
Definition indexOf (l : list Ball.t) (ball : Ball.t) : option nat :=
  fst <$> list_find (fun b => Ball.id b = Ball.id ball) l.

(** [steps.forEach((b, i) => b.updateSeq(i + 1))] *)
Definition renumber (l : list Ball.t) : list Ball.t :=
  imap (fun i b => Ball.updateSeq b (i + 1)) l.

Definition removeBall (ball : Ball.t) (w : World) : World :=
  match indexOf (steps w) ball with
  | Some idx =>
      let w := set_body_nodes w (remove_node (NBall (Ball.id ball)) (body_nodes w)) in
      set_steps w (renumber (delete idx (steps w)))
  | None => w
  end.

Definition clearAll (w : World) : World :=
  let ns := foldr (fun b ns => remove_node (NBall (Ball.id b)) ns)
                  (body_nodes w) (steps w) in
  set_steps (set_body_nodes w ns) [].

(** ** Config transcoder: decode *)

Definition nl : string := String "010"%char EmptyString.

Definition decodeStep (pg : Page) (sels : gmap string string)
    (acc : World * num) (step : Step) : Completion (World * num) :=
  let '(w, pendingDelay) := acc in
  let action := action step in
  if String.eqb action "WAIT" then
    let waitValue := parseFloat_or_0 pg (value step) in
    Normal (w, (pendingDelay + waitValue * thousand)%Qc)
  else if negb (existsb (String.eqb action) ["CLICK"; "FILL_INPUT"; "STREAM_WAIT"]) then
    Normal (w, pendingDelay)
  else
    let targetKey := target step in
    let selector : option string := sels !! targetKey in
    let '(type, stepConfig) :=
      if String.eqb action "CLICK" then
        (CLICK, mkStepConfig (Some pendingDelay) (Some ten) None
                             (Some selector) (Some targetKey))
      else if String.eqb action "FILL_INPUT" then
        (INPUT, mkStepConfig (Some pendingDelay) None (Some EmptyString)
                             (Some selector) (Some targetKey))
      else
        (READ, mkStepConfig (Some pendingDelay) None None
                            (Some (Some (or_else selector EmptyString)))
                            (Some targetKey)) in
    r <- addBall pg type stepConfig w ;;;
    Normal (snd r, 0%Qc).

(** [workflow.forEach] with the accumulator the callback closes over. *)
Fixpoint forEach {S A} (f : S -> A -> Completion S) (l : list A) (s : S)
  : Completion S :=
  match l with
  | [] => Normal s
  | a :: l' => s' <- f s a ;;; forEach f l' s'
  end.

Definition missingLine (b : Ball.t) : string :=
  "• " +:+ or_else (targetKey (Ball.config b)) "未知" +:+ ": "
  +:+ template (selector (Ball.config b)).

Definition missingNotice (warningBalls : list Ball.t) : string :=
  "⚠️ 以下 " +:+ pretty (length warningBalls)
  +:+ " 个选择器对应的元素当前不存在：" +:+ nl +:+ nl
  +:+ String.concat nl (missingLine <$> warningBalls) +:+ nl +:+ nl
  +:+ "可能原因：" +:+ nl
  +:+ "1. 元素需要特定操作后才会出现（如输入框有内容时）" +:+ nl
  +:+ "2. 页面尚未完全加载" +:+ nl
  +:+ "3. 选择器已失效需要更新" +:+ nl +:+ nl
  +:+ "标记为红色的小球表示元素未找到。".

(** The end of [loadFromConfig]: one summary alert, 300 ms later, if any
    marker carries a warning. *)
Definition summarize (w : World) : World :=
  let warningBalls := List.filter Ball.isWarning (steps w) in
  if (0 <? length warningBalls)%nat
  then setTimeout w (TAlert (missingNotice warningBalls)) 300
  else w.

Definition loadFromConfig (pg : Page) (config : option SiteConfig) (w : World)
  : Completion World :=
  match config with
  | None => Normal w
  | Some c =>
      match workflow c, selectors c with
      | Some workflow, Some sels =>
          let w := clearAll w in
          let w := set_siteConfig w (Some c) in
          r <- forEach (decodeStep pg sels) workflow (w, 0%Qc) ;;;
          Normal (summarize (fst r))
      | _, _ => Normal w
      end
  end.

(** ** Config transcoder: encode *)

(** The WAIT record put before a step with a positive delay. *)
Definition waitRecord (delayMs : num) : list Step :=
  if decide (0 < delayMs)%Qc
  then [mkStep "WAIT" EmptyString false (VNum (delayMs / thousand)%Qc)]
  else [].

(** The step's own record. *)
Definition ownRecord (idx : nat) (ball : Ball.t) : Step :=
  let c := Ball.config ball in
  match Ball.type ball with
  | CLICK =>
      mkStep "CLICK" (or_else (targetKey c) ("custom_click_" +:+ pretty idx))
             false VNull
  | INPUT =>
      mkStep "FILL_INPUT" (or_else (targetKey c) "input_box") false
             (if String.eqb (text c) EmptyString then VNull else VStr (text c))
  | READ =>
      mkStep "STREAM_WAIT" (or_else (targetKey c) "result_container") false VNull
  end.

(** The [newWorkflow] array that [doSave] builds. *)
Definition newWorkflow (steps : list Ball.t) : list Step :=
  concat (imap (fun idx ball =>
                  (waitRecord (delay_ms (Ball.config ball))
                   ++ [ownRecord idx ball])%list)
               steps).

Inductive SaveOutcome : Type :=
| SaveAlert (msg : string)
| SavePut (domain : string) (workflow : list Step).

(** [doSave] up to the request it issues. *)
Definition doSave (pg : Page) (w : World) : SaveOutcome :=
  match siteConfig w with
  | None => SaveAlert "❌ 未加载站点配置，无法保存"
  | Some _ =>
      if (length (steps w) =? 0)%nat then SaveAlert "❌ 没有可保存的步骤"
      else SavePut (hostname pg) (newWorkflow (steps w))
  end.

(** Decode a profile into a fresh editor, then build the workflow to save. *)
Definition decode (pg : Page) (sels : gmap string string) (L : list Step)
  : Completion World :=
  loadFromConfig pg (Some (mkSiteConfig (Some sels) (Some L))) initial_world.


(** ** Vocabulary of the properties *)

(** The marker's on-screen size, from the stylesheet the script injects:
    [.wfe-ball { width: 32px; height: 32px; }]. *)
Definition markerSize : num := num_of_Z 32.

(** The sequence numbers are 1..N, in list order. *)
Definition seq_ok (l : list Ball.t) : Prop :=
  Ball.seq <$> l = seq 1 (length l).


Definition is_wait (r : Step) : bool := String.eqb (action r) "WAIT".



(** No record is preceded by more than one Wait record. *)
Fixpoint at_most_one_wait (L : list Step) : bool :=
  match L with
  | a :: L' =>
      match L' with
      | b :: _ => negb (is_wait a && is_wait b) && at_most_one_wait L'
      | [] => true
      end
  | [] => true
  end.







(** The marker has a correlated symbolic key. *)
Definition key_known (b : Ball.t) : bool := truthy (targetKey (Ball.config b)).


Definition action_of (t : BallType) : string :=
  match t with
  | CLICK => "CLICK"
  | INPUT => "FILL_INPUT"
  | READ => "STREAM_WAIT"
  end.

(** The profile object [decode] loads. *)
Definition profile (sels : gmap string string) (L : list Step) : SiteConfig :=
  mkSiteConfig (Some sels) (Some L).

(** ** A small concrete page

    A chat page with a body that carries an id, a prompt box, a send
    button and two rendered replies.  Its [querySelectorAll] understands
    [#id], [.class] and tag selectors, and rejects the empty selector and
    a selector that starts with a combinator. *)

Module Demo.

Definition rect0 : Rect := mkRect 0%Qc 0%Qc px100 px40.
Definition rect_prompt : Rect :=
  mkRect px100 (num_of_Z 600) (num_of_Z 400) px40.

Definition e_body : Element :=
  mkElement 0 "app" None (Some EmptyString) "BODY" rect0.
Definition e_prompt : Element :=
  mkElement 1 "prompt-textarea" None (Some "wfe-x input") "TEXTAREA" rect_prompt.
Definition e_send : Element :=
  mkElement 2 EmptyString (Some "send-button") (Some "btn primary") "BUTTON" rect0.
Definition e_reply1 : Element :=
  mkElement 3 EmptyString None (Some "markdown") "DIV" rect0.
Definition e_reply2 : Element :=
  mkElement 4 EmptyString None (Some "markdown") "DIV" rect_prompt.

Definition doc : list Element := [e_body; e_prompt; e_send; e_reply1; e_reply2].

Definition has_class (c : string) (e : Element) : bool :=
  existsb (String.eqb c) (split_space (or_else (className e) EmptyString)).

Definition qsa (s : string) : Completion (list Element) :=
  match s with
  | EmptyString => Throw "SyntaxError"
  | String c rest =>
      if Ascii.eqb c ">"%char then Throw "SyntaxError"
      else if Ascii.eqb c "#"%char then
        if String.eqb rest EmptyString then Throw "SyntaxError"
        else Normal (List.filter (fun e => String.eqb (el_id e) rest) doc)
      else if Ascii.eqb c "."%char then
        if String.eqb rest EmptyString then Throw "SyntaxError"
        else Normal (List.filter (has_class rest) doc)
      else Normal (List.filter (fun e => String.eqb (toLowerCase (tagName e)) s) doc)
  end.

Definition half : num := Q2Qc (1 # 2).

Definition parse (s : string) : option num :=
  if String.eqb s "0.5" then Some half
  else if String.eqb s "1" then Some 1%Qc
  else None.

Definition page : Page :=
  mkPage doc e_body qsa (fun s => s) thousand (num_of_Z 800) "chat.example" parse.

(** A profile's selector map: one key resolves on the page, one does
    not. *)
Definition sels : gmap string string :=
  <["input_box" := "#prompt-textarea"]>
    (<["send_btn" := "#send"]>
       (<["result_container" := ".markdown"]> ∅)).

End Demo.

(** ** More of the script: export, dragging, picker handlers *)

(** The uncaught-exception view of an event handler: the state it leaves
    behind and, if it was aborted, the exception. *)
Definition Handled : Type := (World * option string)%type.

(** [Math.round]: to the nearest integer, halves up. *)
Definition Math_round (q : num) : Z := Qfloor (this (q + Q2Qc (1 # 2))%Qc).

(** [this.type] as the string the script stores. *)
Definition typeName (t : BallType) : string :=
  match t with
  | CLICK => "CLICK"
  | INPUT => "INPUT"
  | READ => "READ"
  end.

(** The object [toJSON] returns; a key the marker's kind does not set is
    [None]. *)
Record BallJSON : Type := mkBallJSON {
  j_seq : nat;
  j_type : string;
  j_delay_ms : num;
  j_x : option Z;
  j_y : option Z;
  j_random_radius : option num;
  j_text : option string;
  j_selector : option (option string)
}.

Definition Ball_toJSON (b : Ball.t) : BallJSON :=
  let c := Ball.config b in
  match Ball.type b with
  | CLICK =>
      mkBallJSON (Ball.seq b) (toLowerCase (typeName CLICK)) (delay_ms c)
                 (Some (Math_round (Ball.x b + px14)%Qc))
                 (Some (Math_round (Ball.y b + px14)%Qc))
                 (Some (random_radius c)) None None
  | INPUT =>
      mkBallJSON (Ball.seq b) (toLowerCase (typeName INPUT)) (delay_ms c)
                 (Some (Math_round (Ball.x b + px14)%Qc))
                 (Some (Math_round (Ball.y b + px14)%Qc))
                 None (Some (text c)) None
  | READ =>
      mkBallJSON (Ball.seq b) (toLowerCase (typeName READ)) (delay_ms c)
                 None None None None (Some (selector c))
  end.

Definition exportConfig (w : World) : list BallJSON := Ball_toJSON <$> steps w.

(** A handler that mutates one marker object: the marker with that
    identity, wherever it sits in the collection. *)
Definition update_ball (ball : nat) (f : Ball.t -> Ball.t) (l : list Ball.t)
  : list Ball.t :=
  (fun b => if decide (Ball.id b = ball) then f b else b) <$> l.

(** The marker's [mousedown] listener. *)
Definition Ball_onMouseDown (button : Z) (clientX clientY : num) (b : Ball.t)
  : Ball.t :=
  if negb (button =? 0)%Z || bool_decide (Ball.type b = READ) then b
  else Ball.mk (Ball.id b) (Ball.type b) (Ball.seq b) (Ball.x b) (Ball.y b)
               (Ball.config b) true
               (mkPoint (clientX - Ball.x b)%Qc (clientY - Ball.y b)%Qc)
               (Ball.isWarning b) (Ball.warningMessage b).

(** [mousedown] dispatched on the element of the marker [ball]. *)
Definition mousedown_on (ball : nat) (button : Z) (clientX clientY : num)
    (w : World) : World :=
  set_steps w (update_ball ball (Ball_onMouseDown button clientX clientY) (steps w)).

(** The document's capturing [mousemove] listener. *)
Definition document_onMouseMove (pg : Page) (clientX clientY : num) (w : World)
  : World :=
  match List.find Ball.isDragging (steps w) with
  | Some ball =>
      set_steps w
        (update_ball (Ball.id ball)
           (fun b => Ball.move pg b (clientX - px (Ball.offset b))%Qc
                                    (clientY - py (Ball.offset b))%Qc)
           (steps w))
  | None => w
  end.

Definition stopDragging (b : Ball.t) : Ball.t :=
  if Ball.isDragging b
  then Ball.mk (Ball.id b) (Ball.type b) (Ball.seq b) (Ball.x b) (Ball.y b)
               (Ball.config b) false (Ball.offset b)
               (Ball.isWarning b) (Ball.warningMessage b)
  else b.

(** The document's capturing [mouseup] listener. *)
Definition document_onMouseUp (w : World) : World :=
  set_steps w (stopDragging <$> steps w).

(** [s.includes(sub)] *)
Fixpoint includes (s sub : string) : bool :=
  String.prefix sub s
  || match s with
     | EmptyString => false
     | String _ s' => includes s' sub
     end.

Definition set_highlighted (w : World) (h : option nat) : World :=
  mkWorld (steps w) (siteConfig w) (isPickingElement w) (pickingCallback w)
          (isVisible w) (pickOverlay w) (pickTip w) h
          (body_nodes w) (keydown_onPickKey w) (timers w) (alerts w) (fresh w).

(** The overlay's [mousemove] listener; [target] is what
    [document.elementFromPoint] finds under the pointer with the overlay
    out of the way.  Which element wears the highlight class is tracked
    by the [highlighted] variable alone. *)
Definition onPickMove (pg : Page) (target : option Element) (w : World) : World :=
  match target with
  | Some t =>
      if negb (bool_decide (node t = node (body pg)))
         && negb (match className t with
                  | Some c => includes c "wfe-"
                  | None => false
                  end)
      then set_highlighted w (Some (node t))
      else w
  | None => w
  end.

Definition set_selector (sel : string) (b : Ball.t) : Ball.t :=
  let c := Ball.config b in
  Ball.mk (Ball.id b) (Ball.type b) (Ball.seq b) (Ball.x b) (Ball.y b)
          (mkConfig (delay_ms c) (random_radius c) (text c) (Some sel) (targetKey c))
          (Ball.isDragging b) (Ball.offset b)
          (Ball.isWarning b) (Ball.warningMessage b).

(** The closure [startPicker] stores in [state.pickingCallback]:
    [ball.config.selector = selector; ball.locateToElement()]. *)
Definition runPickingCallback (pg : Page) (ball : nat) (sel : string) (w : World)
  : Handled :=
  let w1 := set_steps w (update_ball ball (set_selector sel) (steps w)) in
  match List.find (fun b => bool_decide (Ball.id b = ball)) (steps w1) with
  | Some b =>
      match Ball.locateToElement pg b with
      | Normal b' => (set_steps w1 (update_ball ball (fun _ => b') (steps w1)), None)
      | Throw e => (w1, Some e)
      end
  | None => (w1, None)
  end.

(** The overlay's [click] listener. *)
Definition onPickClick (pg : Page) (target : option Element) (w : World) : Handled :=
  match target, highlighted w, pickingCallback w with
  | Some t, Some _, Some ball =>
      match generateSelector pg (Some t) with
      | Throw e => (w, Some e)
      | Normal sel =>
          match runPickingCallback pg ball sel w with
          | (w1, None) => (endPicker w1, None)
          | (w1, Some e) => (w1, Some e)
          end
      end
  | _, _, _ => (endPicker w, None)
  end.

(** [window.WorkflowEditor.reload] *)
Definition WorkflowEditor_reload (pg : Page) (w : World) : Completion World :=
  loadFromConfig pg (siteConfig w) w.

(** ** More vocabulary *)

(** The marker nodes attached to the document, in order. *)
Definition ball_nodes (ns : list EditorNode) : list nat :=
  omap (fun n => match n with NBall i => Some i | _ => None end) ns.

Definition node_number (n : EditorNode) : nat :=
  match n with
  | NBall i => i
  | NOverlay i => i
  | NTip i => i
  end.

(** What every state of the editor satisfies: the markers have distinct
    identities, the marker nodes on the page are the collection's markers
    in order, every object the script made is older than [fresh], and the
    sequence numbers are 1..N. *)
Record world_ok (w : World) : Prop := mk_world_ok {
  ok_nodup : NoDup (Ball.id <$> steps w);
  ok_nodes : ball_nodes (body_nodes w) = Ball.id <$> steps w;
  ok_fresh : Forall (fun n => (node_number n < fresh w)%nat) (body_nodes w);
  ok_seq : seq_ok (steps w)
}.

(** What the user, the timers and the host tooling can do to the editor. *)
Inductive Event : Type :=
| EvAddBall (type : BallType) (config : StepConfig)
| EvRemoveBall (ball : Ball.t)
| EvClearAll
| EvLoad (config : option SiteConfig)
| EvReload
| EvStartPicker (ball : nat)
| EvPickMove (target : option Element)
| EvPickClick (target : option Element)
| EvPickKey (key : string)
| EvHide
| EvTimer
| EvMouseDown (ball : nat) (button : Z) (clientX clientY : num)
| EvMouseMove (clientX clientY : num)
| EvMouseUp.

(** The state after the handler of an event has run (or was aborted). *)
Definition settle (w : World) (c : Completion World) : World :=
  match c with
  | Normal w' => w'
  | Throw _ => w
  end.

Definition handle (pg : Page) (ev : Event) (w : World) : World :=
  match ev with
  | EvAddBall ty cfg => settle w (r <- addBall pg ty cfg w ;;; Normal (snd r))
  | EvRemoveBall ball => removeBall ball w
  | EvClearAll => clearAll w
  | EvLoad cfg => settle w (loadFromConfig pg cfg w)
  | EvReload => settle w (WorkflowEditor_reload pg w)
  | EvStartPicker ball => startPicker ball w
  | EvPickMove target =>
      (* the listener sits on an overlay *)
      if bool_decide (overlays w = []) then w else onPickMove pg target w
  | EvPickClick target =>
      if bool_decide (overlays w = []) then w else fst (onPickClick pg target w)
  | EvPickKey key =>
      (* the listener is on the document only while picking *)
      if keydown_onPickKey w then onPickKey key w else w
  | EvHide => hideEditor w
  | EvTimer => fireTimer w
  | EvMouseDown ball button cx cy => mousedown_on ball button cx cy w
  | EvMouseMove cx cy => document_onMouseMove pg cx cy w
  | EvMouseUp => document_onMouseUp w
  end.

(** The states the editor can be in. *)
Inductive reachable (pg : Page) : World -> Prop :=
| reach_initial : reachable pg initial_world
| reach_handle (ev : Event) (w : World) :
    reachable pg w -> reachable pg (handle pg ev w).





(** The locator finds no element for a selector. *)
Definition finds_nothing (pg : Page) (s : option string) : bool :=
  match findElement pg s with
  | Normal None => true
  | _ => false
  end.


(** A Read marker that has no selector yet. *)
Definition needs_picker (b : Ball.t) : bool :=
  bool_decide (Ball.type b = READ) && negb (truthy (selector (Ball.config b))).

Definition picker_timer (b : Ball.t) : Timer :=
  mkTimer (TStartPicker (Ball.id b)) 100.

(** The workflow built for markers that stand at index [k] onwards. *)
Definition newWorkflow_from (k : nat) (l : list Ball.t) : list Step :=
  concat (imap (fun i ball =>
                  (waitRecord (delay_ms (Ball.config ball))
                   ++ [ownRecord (k + i) ball])%list) l).

(** What [doSave] reads of a marker. *)
Definition saved_fields (b : Ball.t) : BallType * Qc * option string * string :=
  (Ball.type b, delay_ms (Ball.config b), targetKey (Ball.config b),
   text (Ball.config b)).


(** ** A page whose selector engine rejects a stray colon

    As browsers do for a class token such as [md:flex] used unescaped in
    a selector. *)

Module Strict.

Definition e_card : Element :=
  mkElement 5 EmptyString None (Some "md:flex card") "DIV" Demo.rect0.

Definition qsa (s : string) : Completion (list Element) :=
  if includes s ":" then Throw "SyntaxError" else Demo.qsa s.

Definition page : Page :=
  mkPage (Demo.doc ++ [e_card]) Demo.e_body qsa (fun s => s) thousand
         (num_of_Z 800) "chat.example" Demo.parse.

End Strict.

(** * Properties *)

(** ** Basic facts about the helpers *)

Lemma truthy_Some (s : string) : truthy (Some s) = true <-> s <> EmptyString.
Proof.
  simpl. rewrite negb_true_iff. split.
  - intros H ->. discriminate.
  - intros H. destruct (String.eqb_spec s EmptyString); congruence.
Qed.

Lemma or_else_truthy (s : string) (d : string) :
  s <> EmptyString -> or_else (Some s) d = s.
Proof.
  intros H. simpl. destruct (String.eqb_spec s EmptyString); congruence.
Qed.

Lemma last_lookup_length {A} (l : list A) :
  l !! (length l - 1)%nat = last l.
Proof.
  rewrite last_lookup. f_equal. lia.
Qed.

(** [findElement] on a non-empty selector, by what [querySelectorAll] does. *)
Lemma findElement_matches (pg : Page) (s : string) (els : list Element) :
  s <> EmptyString ->
  querySelectorAll pg s = Normal els ->
  findElement pg (Some s) = Normal (last els).
Proof.
  intros Hs Hq. unfold findElement.
  apply truthy_Some in Hs as Ht. rewrite Ht. simpl negb. cbv iota.
  rewrite or_else_truthy by assumption. rewrite Hq. simpl.
  destruct els as [|e els]; [reflexivity|].
  change (0 <? length (e :: els))%nat with true. cbv iota.
  apply (f_equal Normal), last_lookup_length.
Qed.

Lemma findElement_syntax_error (pg : Page) (s : option string) (e : string) :
  querySelectorAll pg (or_else s EmptyString) = Throw e ->
  findElement pg s = Normal None.
Proof.
  intros Hq. unfold findElement. destruct (truthy s); [|reflexivity].
  simpl. rewrite Hq. reflexivity.
Qed.

(** The locator always returns: the [catch] handler itself cannot raise. *)
Lemma findElement_returns (pg : Page) (s : option string) :
  exists r, findElement pg s = Normal r.
Proof.
  unfold findElement. destruct (truthy s); simpl; [|eauto].
  destruct (querySelectorAll pg _); simpl; eauto.
Qed.

Lemma demo_dom_id_selector : dom_id_selector Demo.page.
Proof.
  intros i Hi. cbn [Demo.page querySelectorAll CSS_escape elements].
  change ("#" +:+ i) with (String "#"%char i). unfold Demo.qsa.
  change (Ascii.eqb "#"%char ">"%char) with false.
  change (Ascii.eqb "#"%char "#"%char) with true. cbv iota.
  destruct (String.eqb_spec i EmptyString); [contradiction|reflexivity].
Qed.

(** ** Element locator *)

(** C5.  For every reference string, the locator returns and never raises;
    it returns none for the empty reference; when the reference matches
    more than one live element it returns the last match in document
    order; and when the reference is rejected as malformed it returns
    none. *)
Theorem findElement_policy (pg : Page) (ref : string) :
  (exists r, findElement pg (Some ref) = Normal r) /\
  (ref = EmptyString -> findElement pg (Some ref) = Normal None) /\
  (forall els : list Element,
      ref <> EmptyString ->
      querySelectorAll pg ref = Normal els ->
      (1 < length els)%nat ->
      exists e, last els = Some e /\
                els !! (length els - 1)%nat = Some e /\
                findElement pg (Some ref) = Normal (Some e)) /\
  (forall e : string,
      querySelectorAll pg ref = Throw e ->
      findElement pg (Some ref) = Normal None).
Proof.
  split; [apply findElement_returns|].
  split; [intros ->; reflexivity|].
  split.
  - intros els Hne Hq Hlen.
    rewrite (findElement_matches pg ref els Hne Hq), last_lookup_length.
    destruct (last els) as [e|] eqn:Hl.
    + exists e. auto.
    + apply last_None in Hl. subst els. simpl in Hlen. lia.
  - intros e Hq. destruct (String.eqb_spec ref EmptyString) as [->|Hne].
    + reflexivity.
    + apply findElement_syntax_error with e.
      rewrite or_else_truthy; assumption.
Qed.

Lemma findElement_policy_witness :
  findElement Demo.page (Some ".markdown") = Normal (Some Demo.e_reply2)
  /\ findElement Demo.page (Some "> div") = Normal None.
Proof.
  destruct (findElement_policy Demo.page ".markdown") as (_ & _ & Hlast & _).
  destruct (findElement_policy Demo.page "> div") as (_ & _ & _ & Hbad).
  split.
  - destruct (Hlast [Demo.e_reply1; Demo.e_reply2]) as (e & Hl & _ & Hf).
    + discriminate.
    + reflexivity.
    + simpl. lia.
    + simpl in Hl. injection Hl as <-. exact Hf.
  - apply (Hbad "SyntaxError"). reflexivity.
Defined.

(** ** Selector synthesizer *)

(** C6, amended.  For every element other than the page's body that has a
    non-generated id (one that does not start with the editor's [wfe-]
    prefix) which is unique on the page, the synthesizer returns the
    ID-based reference for that id, and the locator applied to that
    reference yields exactly that element. *)
Theorem generateSelector_unique_id (pg : Page) (e : Element) :
  dom_id_selector pg ->
  node e <> node (body pg) ->
  el_id e <> EmptyString ->
  startsWith (el_id e) "wfe-" = false ->
  List.filter (fun e' => String.eqb (el_id e') (el_id e)) (elements pg) = [e] ->
  generateSelector pg (Some e) = Normal ("#" +:+ CSS_escape pg (el_id e))
  /\ findElement pg (Some ("#" +:+ CSS_escape pg (el_id e))) = Normal (Some e).
Proof.
  intros Hdom Hbody Hid Hgen Huniq.
  pose proof (Hdom (el_id e) Hid) as Hq. rewrite Huniq in Hq.
  split.
  - unfold generateSelector.
    destruct (decide (node e = node (body pg))) as [?|_]; [contradiction|].
    destruct (String.eqb_spec (el_id e) EmptyString) as [?|_]; [contradiction|].
    rewrite Hgen. simpl negb. cbv iota. simpl andb. cbv iota.
    unfold qsa_length_is_1. rewrite Hq. reflexivity.
  - rewrite (findElement_matches pg _ [e]); [reflexivity| |exact Hq].
    discriminate.
Qed.

Lemma generateSelector_unique_id_witness :
  generateSelector Demo.page (Some Demo.e_prompt) = Normal "#prompt-textarea"
  /\ findElement Demo.page (Some "#prompt-textarea") = Normal (Some Demo.e_prompt).
Proof.
  apply (generateSelector_unique_id Demo.page Demo.e_prompt).
  - exact demo_dom_id_selector.
  - simpl. lia.
  - discriminate.
  - reflexivity.
  - reflexivity.
Defined.

(** C6 as stated fails at the page's body: its id is unique and not
    generated, yet the synthesizer answers with the fixed root reference. *)
Lemma generateSelector_body_counterexample :
  let e := body Demo.page in
  dom_id_selector Demo.page
  /\ el_id e = "app"
  /\ startsWith (el_id e) "wfe-" = false
  /\ List.filter (fun e' => String.eqb (el_id e') (el_id e)) (elements Demo.page) = [e]
  /\ generateSelector Demo.page (Some e) = Normal "body"
  /\ generateSelector Demo.page (Some e)
     <> Normal ("#" +:+ CSS_escape Demo.page (el_id e)).
Proof.
  split; [exact demo_dom_id_selector|].
  repeat split; try reflexivity. discriminate.
Qed.

(** ** Step markers and the step collection *)

Lemma Math_max_ge_l (a b : num) : (a <= Math_max a b)%Qc.
Proof.
  unfold Math_max. destruct (decide (a < b)%Qc) as [H|H].
  - apply Qclt_le_weak, H.
  - apply Qcle_refl.
Qed.

Lemma Math_max_min_le (a b c : num) :
  (Math_max a (Math_min b c) <= Math_max a b)%Qc.
Proof.
  unfold Math_max, Math_min.
  destruct (decide (b < c)%Qc) as [Hbc|Hbc]; [apply Qcle_refl|].
  apply Qcnot_lt_le in Hbc.
  destruct (decide (a < c)%Qc) as [Hac|Hac];
    destruct (decide (a < b)%Qc) as [Hab|Hab].
  - assumption.
  - exfalso. apply Hab. eapply Qclt_le_trans; eassumption.
  - apply Qclt_le_weak, Hab.
  - apply Qcle_refl.
Qed.

(** What [move] does guarantee: the stored position is never negative and
    never beyond the viewport less 28 pixels (or 0 in a viewport narrower
    than that). *)
Lemma move_clamps (pg : Page) (b : Ball.t) (nx ny : num) :
  let b' := Ball.move pg b nx ny in
  (0 <= Ball.x b')%Qc
  /\ (Ball.x b' <= Math_max 0 (innerWidth pg - px28))%Qc
  /\ (0 <= Ball.y b')%Qc
  /\ (Ball.y b' <= Math_max 0 (innerHeight pg - px28))%Qc.
Proof.
  simpl. repeat split;
    first [apply Math_max_ge_l | apply Math_max_min_le].
Qed.

(** C3.  The claim bounds the stored position by the viewport less the
    marker's size, 32 pixels in the script's stylesheet; [move] subtracts
    28.  In a viewport 1000 wide and 800 high a move to (2000, 900) stores
    (972, 772), both beyond the viewport less the marker's size. *)
Theorem move_exceeds_marker_bound :
  let b0 := Ball.constructor 0 (Ball.mkOpts CLICK 1 None None empty_config) in
  let b := Ball.move Demo.page b0 (num_of_Z 2000) (num_of_Z 900) in
  Ball.x b = num_of_Z 972
  /\ Ball.y b = num_of_Z 772
  /\ (innerWidth Demo.page - markerSize < Ball.x b)%Qc
  /\ (innerHeight Demo.page - markerSize < Ball.y b)%Qc.
Proof.
  repeat split; try (apply Qc_is_canon; vm_compute; reflexivity);
    vm_compute; reflexivity.
Qed.




Lemma renumber_seq_ok (l : list Ball.t) : seq_ok (renumber l).
Proof.
  unfold seq_ok, renumber. apply list_eq. intros i.
  rewrite list_lookup_fmap, list_lookup_imap, length_imap.
  destruct (l !! i) as [b|] eqn:Hb; simpl.
  - apply lookup_lt_Some in Hb as Hlt.
    rewrite lookup_seq_lt by assumption. f_equal. lia.
  - apply lookup_ge_None in Hb. symmetry. apply lookup_seq_ge. assumption.
Qed.


Lemma removeBall_steps (ball : Ball.t) (w : World) :
  steps (removeBall ball w)
  = match indexOf (steps w) ball with
    | Some idx => renumber (delete idx (steps w))
    | None => steps w
    end.
Proof.
  unfold removeBall. destruct (indexOf (steps w) ball); reflexivity.
Qed.




(** ** Interactive picker *)

(** [startPicker] installs a new overlay and removes none. *)
Lemma startPicker_adds_overlay (ball : nat) (w : World) :
  overlays (startPicker ball w) = (overlays w ++ [fresh w])%list.
Proof.
  unfold overlays, startPicker. cbn [body_nodes].
  rewrite omap_app. reflexivity.
Qed.

(** C4.  [startPicker] does not tear down a session that is still active.
    Decoding a profile with two StreamWait records whose keys have no
    selector schedules the picker twice; when both timers have fired two
    capture overlays are attached at once, and [endPicker], which only
    knows the newer one, leaves the older one attached for good, also
    when the editor is hidden. *)
Theorem picker_overlays_coexist :
  exists w,
    decode Demo.page Demo.sels
           [mkStep "STREAM_WAIT" "reply_a" false VNull;
            mkStep "STREAM_WAIT" "reply_b" false VNull] = Normal w
    /\ timers w = [mkTimer (TStartPicker 0) 100; mkTimer (TStartPicker 1) 100]
    /\ isPickingElement (fireTimer w) = true
    /\ overlays (fireTimer w) = [2]
    /\ overlays (fireTimer (fireTimer w)) = [2; 4]
    /\ overlays (endPicker (fireTimer (fireTimer w))) = [2]
    /\ isPickingElement (endPicker (fireTimer (fireTimer w))) = false
    /\ overlays (onPickKey "Escape" (endPicker (fireTimer (fireTimer w)))) = [2]
    /\ overlays (hideEditor (fireTimer (fireTimer w))) = [2].
Proof.
  eexists. split; [vm_compute; reflexivity|].
  repeat split; vm_compute; reflexivity.
Qed.

(** ** Config transcoder: decode *)







Section Decode.

Context (pg : Page) (sels : gmap string string).







End Decode.












(** *** The remembered profile does not influence the markers *)






(** ** Config transcoder: encode *)

Lemma newWorkflow_snoc (l : list Ball.t) (b : Ball.t) :
  newWorkflow (l ++ [b])
  = (newWorkflow l ++ waitRecord (delay_ms (Ball.config b))
       ++ [ownRecord (length l) b])%list.
Proof.
  unfold newWorkflow. rewrite imap_app, concat_app. f_equal.
  cbn [imap concat]. rewrite Nat.add_0_r, app_nil_r. reflexivity.
Qed.

Lemma ownRecord_action (idx : nat) (b : Ball.t) :
  action (ownRecord idx b) = action_of (Ball.type b).
Proof. unfold ownRecord. destruct (Ball.type b); reflexivity. Qed.

Lemma ownRecord_not_wait (idx : nat) (b : Ball.t) : is_wait (ownRecord idx b) = false.
Proof.
  unfold is_wait. rewrite ownRecord_action. destruct (Ball.type b); reflexivity.
Qed.

(** The built workflow never ends in a Wait record. *)
Lemma newWorkflow_last (l : list Ball.t) (r : Step) :
  last (newWorkflow l) = Some r -> is_wait r = false.
Proof.
  destruct l as [|b l _] using rev_ind.
  - discriminate.
  - rewrite newWorkflow_snoc, app_assoc, last_snoc.
    intros [= <-]. apply ownRecord_not_wait.
Qed.






Lemma or_else_falsy (s : option string) (d : string) :
  truthy s = false -> or_else s d = d.
Proof.
  destruct s as [s|]; simpl; [|reflexivity].
  destruct (String.eqb s EmptyString); [reflexivity|discriminate].
Qed.

Lemma or_else_known (s : option string) (d : string) :
  truthy s = true -> s = Some (or_else s d).
Proof.
  destruct s as [s|]; simpl; [|discriminate].
  destruct (String.eqb s EmptyString); [discriminate|reflexivity].
Qed.

Lemma ownRecord_target (idx : nat) (b : Ball.t) :
  target (ownRecord idx b)
  = or_else (targetKey (Ball.config b))
      match Ball.type b with
      | CLICK => "custom_click_" +:+ pretty idx
      | INPUT => "input_box"
      | READ => "result_container"
      end.
Proof. unfold ownRecord. destruct (Ball.type b); reflexivity. Qed.

Lemma newWorkflow_own_records (l : list Ball.t) :
  List.filter (fun r => negb (is_wait r)) (newWorkflow l) = imap ownRecord l.
Proof.
  induction l as [|b l IH] using rev_ind.
  - reflexivity.
  - rewrite newWorkflow_snoc, !List.filter_app, IH, imap_app. f_equal.
    cbn [imap]. rewrite Nat.add_0_r.
    unfold waitRecord. destruct (decide _); cbn [List.filter app];
      rewrite ?ownRecord_not_wait; reflexivity.
Qed.

(** C7, amended.  The records other than Waits in the built workflow are
    the markers' own records, in order.  The target of a marker's record
    is its correlated key when one is known; otherwise it is
    [custom_click_] followed by the marker's index for a Click — a
    placeholder no other marker without a known key shares — and the fixed
    key [input_box] for every Input marker and [result_container] for
    every Read marker. *)
Theorem newWorkflow_targets (l : list Ball.t) :
  List.filter (fun r => negb (is_wait r)) (newWorkflow l) = imap ownRecord l
  /\ (forall idx b,
        l !! idx = Some b ->
        (key_known b = true ->
           targetKey (Ball.config b) = Some (target (ownRecord idx b)))
        /\ (key_known b = false ->
              target (ownRecord idx b)
              = match Ball.type b with
                | CLICK => "custom_click_" +:+ pretty idx
                | INPUT => "input_box"
                | READ => "result_container"
                end))
  /\ (forall i j bi bj,
        l !! i = Some bi -> l !! j = Some bj -> i <> j ->
        key_known bi = false -> key_known bj = false ->
        Ball.type bi = CLICK ->
        target (ownRecord i bi) <> target (ownRecord j bj)).
Proof.
  split; [apply newWorkflow_own_records|]. split.
  - intros idx b _. rewrite ownRecord_target. split; intros Hk.
    + apply or_else_known, Hk.
    + apply or_else_falsy, Hk.
  - intros i j bi bj _ _ Hij Hki Hkj Hty.
    rewrite !ownRecord_target, !or_else_falsy by assumption.
    rewrite Hty. destruct (Ball.type bj).
    + intros H. apply (inj (String.append "custom_click_")) in H.
      apply (inj pretty) in H. contradiction.
    + discriminate.
    + discriminate.
Qed.

Lemma newWorkflow_targets_witness :
  let a := Ball.constructor 0 (Ball.mkOpts CLICK 1 None None empty_config) in
  let b := Ball.constructor 1 (Ball.mkOpts CLICK 2 None None empty_config) in
  target (ownRecord 0 a) = "custom_click_0"
  /\ target (ownRecord 0 a) <> target (ownRecord 1 b).
Proof.
  intros a b.
  destruct (newWorkflow_targets [a; b]) as (_ & Hkey & Huniq).
  split.
  - apply (Hkey 0%nat a); reflexivity.
  - apply (Huniq 0%nat 1%nat a b); try reflexivity. lia.
Defined.

(** C7 as stated fails: two Input markers added from the toolbar have no
    known key, and the workflow saved for them gives both the target
    [input_box]. *)
Lemma placeholder_counterexample :
  exists w0 b1 w1 b2 w2 r1 rw r2,
    decode Demo.page Demo.sels [] = Normal w0
    /\ addBall Demo.page INPUT empty_config w0 = Normal (b1, w1)
    /\ addBall Demo.page INPUT empty_config w1 = Normal (b2, w2)
    /\ key_known b1 = false
    /\ key_known b2 = false
    /\ doSave Demo.page w2 = SavePut "chat.example" [r1; rw; r2]
    /\ r1 = ownRecord 0 b1
    /\ r2 = ownRecord 1 b2
    /\ target r1 = "input_box"
    /\ target r2 = "input_box".
Proof.
  do 8 eexists.
  split; [vm_compute; reflexivity|].
  split; [vm_compute; reflexivity|].
  split; [vm_compute; reflexivity|].
  split; [reflexivity|]. split; [reflexivity|].
  split; [vm_compute; reflexivity|].
  repeat split; reflexivity.
Qed.

(** ** Round trip *)

Lemma thousand_nonzero : thousand <> 0%Qc.
Proof. intros H. apply (f_equal this) in H. vm_compute in H. discriminate. Qed.



Section RoundTrip.

Context (pg : Page) (sels : gmap string string).


End RoundTrip.




(** * Further properties *)

(** ** Moving and locating a marker *)

Lemma clamp_fixed (m c : Qc) :
  (0 <= c)%Qc -> (c <= Math_max 0 m)%Qc ->
  Math_max 0 (Math_min m c) = c.
Proof.
  intros H0 Hm. unfold Math_max, Math_min in *.
  destruct (decide (0 < m)%Qc) as [Hpos|Hneg].
  - destruct (decide (m < c)%Qc) as [Hlt|_].
    + exfalso. exact (Qclt_not_le _ _ Hlt Hm).
    + destruct (decide (0 < c)%Qc) as [_|Hn]; [reflexivity|].
      apply Qcle_antisym; [exact H0|apply Qcnot_lt_le, Hn].
  - assert (Hc : c = 0%Qc) by (apply Qcle_antisym; assumption).
    subst c. apply Qcnot_lt_le in Hneg.
    destruct (decide (m < 0)%Qc) as [Hlt|_].
    + destruct (decide (0 < m)%Qc) as [Hp|_]; [|reflexivity].
      exfalso. exact (Qclt_not_le _ _ Hp Hneg).
    + destruct (decide (0 < 0)%Qc) as [Hp|_]; reflexivity.
Qed.

Lemma clamp_in_range (m c : Qc) :
  (0 <= c)%Qc -> (c <= m)%Qc -> Math_max 0 (Math_min m c) = c.
Proof.
  intros H0 Hm. apply clamp_fixed; [exact H0|].
  eapply Qcle_trans; [exact Hm|].
  unfold Math_max. destruct (decide (0 < m)%Qc) as [_|Hn]; [apply Qcle_refl|].
  apply Qcnot_lt_le, Hn.
Qed.

Lemma move_in_range (pg : Page) (b : Ball.t) (nx ny : Qc) :
  (0 <= nx)%Qc -> (nx <= innerWidth pg - px28)%Qc ->
  (0 <= ny)%Qc -> (ny <= innerHeight pg - px28)%Qc ->
  Ball.move pg b nx ny
  = Ball.mk (Ball.id b) (Ball.type b) (Ball.seq b) nx ny (Ball.config b)
            (Ball.isDragging b) (Ball.offset b) (Ball.isWarning b)
            (Ball.warningMessage b).
Proof.
  intros Hx0 Hx1 Hy0 Hy1. unfold Ball.move.
  rewrite (clamp_in_range _ _ Hx0 Hx1), (clamp_in_range _ _ Hy0 Hy1). reflexivity.
Qed.

Lemma locateToElement_returns (pg : Page) (b : Ball.t) :
  exists b', Ball.locateToElement pg b = Normal b'.
Proof.
  unfold Ball.locateToElement.
  destruct (findElement_returns pg (selector (Ball.config b))) as [[e|] Hr];
    rewrite Hr; cbn [cbind]; eauto.
Qed.

(** X1.  A move to a position inside the viewport less 28 pixels stores
    exactly that position and changes nothing else of the marker; and
    whatever was asked for, moving the marker again to where it now is
    changes nothing. *)
Theorem move_in_range_and_again (pg : Page) (b : Ball.t) (nx ny : Qc) :
  let b' := Ball.move pg b nx ny in
  Ball.move pg b' (Ball.x b') (Ball.y b') = b'
  /\ ((0 <= nx)%Qc -> (nx <= innerWidth pg - px28)%Qc ->
      (0 <= ny)%Qc -> (ny <= innerHeight pg - px28)%Qc ->
      b' = Ball.mk (Ball.id b) (Ball.type b) (Ball.seq b) nx ny (Ball.config b)
                   (Ball.isDragging b) (Ball.offset b) (Ball.isWarning b)
                   (Ball.warningMessage b)).
Proof.
  cbn zeta. split.
  - destruct (move_clamps pg b nx ny) as (Hx0 & Hx1 & Hy0 & Hy1).
    cbn zeta in Hx0, Hx1, Hy0, Hy1.
    unfold Ball.move in *. cbn [Ball.x Ball.y Ball.id Ball.type Ball.seq
      Ball.config Ball.isDragging Ball.offset Ball.isWarning Ball.warningMessage] in *.
    rewrite (clamp_fixed _ _ Hx0 Hx1), (clamp_fixed _ _ Hy0 Hy1). reflexivity.
  - apply move_in_range.
Qed.

Lemma move_in_range_and_again_witness :
  let b := Ball.constructor 0 (Ball.mkOpts CLICK 1 None None empty_config) in
  Ball.x (Ball.move Demo.page b (num_of_Z 300) (num_of_Z 200)) = num_of_Z 300
  /\ Ball.y (Ball.move Demo.page b (num_of_Z 300) (num_of_Z 200)) = num_of_Z 200.
Proof.
  intros b.
  destruct (move_in_range_and_again Demo.page b (num_of_Z 300) (num_of_Z 200))
    as [_ H].
  cbn zeta in H. rewrite H; [split; reflexivity| | | |]; vm_compute; discriminate.
Defined.

(** X2.  [locateToElement] always returns.  When the marker's selector
    finds no element the marker is left as it is.  When it finds one and
    the element's centre lies at least 14 pixels inside the clamping
    range, the marker's centre (its position plus 14) is the centre of the
    element's bounding box, and nothing else of the marker changes. *)
Theorem locateToElement_centres (pg : Page) (b : Ball.t) :
  (exists b', Ball.locateToElement pg b = Normal b')
  /\ (findElement pg (selector (Ball.config b)) = Normal None ->
      Ball.locateToElement pg b = Normal b)
  /\ (forall e : Element,
        findElement pg (selector (Ball.config b)) = Normal (Some e) ->
        let r := getBoundingClientRect e in
        let cx := (left r + width r / two)%Qc in
        let cy := (top r + height r / two)%Qc in
        (0 <= cx - px14)%Qc -> (cx - px14 <= innerWidth pg - px28)%Qc ->
        (0 <= cy - px14)%Qc -> (cy - px14 <= innerHeight pg - px28)%Qc ->
        exists b',
          Ball.locateToElement pg b = Normal b'
          /\ (Ball.x b' + px14)%Qc = cx
          /\ (Ball.y b' + px14)%Qc = cy
          /\ Ball.config b' = Ball.config b
          /\ Ball.seq b' = Ball.seq b
          /\ Ball.isWarning b' = Ball.isWarning b).
Proof.
  split; [apply locateToElement_returns|].
  unfold Ball.locateToElement. split.
  - intros ->. reflexivity.
  - intros e He Hx0 Hx1 Hy0 Hy1. rewrite He. cbn [cbind].
    eexists. split; [reflexivity|].
    unfold getElementCenter. cbn [px py].
    rewrite (move_in_range pg b _ _ Hx0 Hx1 Hy0 Hy1).
    cbn [Ball.x Ball.y Ball.config Ball.seq Ball.isWarning].
    repeat split; ring.
Qed.

Lemma locateToElement_centres_witness :
  let b := Ball.constructor 0
             (Ball.mkOpts READ 1 None None
                (mkStepConfig None None None (Some (Some "#prompt-textarea")) None)) in
  exists b',
    Ball.locateToElement Demo.page b = Normal b'
    /\ (Ball.x b' + px14)%Qc = num_of_Z 300
    /\ (Ball.y b' + px14)%Qc = num_of_Z 620.
Proof.
  intros b.
  destruct (locateToElement_centres Demo.page b) as (_ & _ & H).
  destruct (H Demo.e_prompt) as (b' & Hl & Hx & Hy & _).
  - reflexivity.
  - vm_compute. discriminate.
  - vm_compute. discriminate.
  - vm_compute. discriminate.
  - vm_compute. discriminate.
  - exists b'. split; [exact Hl|]. split.
    + rewrite Hx. apply Qc_is_canon. reflexivity.
    + rewrite Hy. apply Qc_is_canon. reflexivity.
Defined.

(** ** What the synthesizer returns *)

Lemma string_app_cons_nonempty (a b : string) (c : ascii) :
  a +:+ String c b <> EmptyString.
Proof. destruct a; discriminate. Qed.

(** A candidate is accepted only if exactly one element matches it. *)
Lemma candidate_accepted (pg : Page) (sel s : string) :
  (one <- qsa_length_is_1 pg sel ;;;
   Normal (if one : bool then Some sel else None)) = Normal (Some s) ->
  s = sel /\ exists x, querySelectorAll pg sel = Normal [x].
Proof.
  unfold qsa_length_is_1.
  destruct (querySelectorAll pg sel) as [els|err]; cbn [cbind]; [|discriminate].
  destruct els as [|x [|y els]]; cbn; try discriminate.
  intros [= <-]. eauto.
Qed.

Lemma unique_match_found (pg : Page) (sel : string) (x : Element) :
  sel <> EmptyString ->
  querySelectorAll pg sel = Normal [x] ->
  findElement pg (Some sel) = Normal (Some x).
Proof.
  intros Hne Hq. rewrite (findElement_matches pg sel [x] Hne Hq). reflexivity.
Qed.

(** X3.  Whatever the synthesizer returns for an element is the fixed
    [body] reference, the element's lower-cased tag name, or a selector
    that exactly one element of the page matches; in that last case the
    locator applied to the returned selector finds that one element. *)
Theorem generateSelector_result (pg : Page) (e : Element) (sel : string) :
  generateSelector pg (Some e) = Normal sel ->
  sel = "body"
  \/ sel = toLowerCase (tagName e)
  \/ exists x, querySelectorAll pg sel = Normal [x]
               /\ findElement pg (Some sel) = Normal (Some x).
Proof.
  unfold generateSelector.
  destruct (decide (node e = node (body pg))) as [_|_];
    [intros [= <-]; left; reflexivity|].
  match goal with
  | |- (idsel <- ?c ;;; _) = _ -> _ => destruct c as [[s1|]|err] eqn:E1
  end; cbn [cbind]; [| |discriminate].
  { intros [= <-]. right. right.
    destruct (negb _ && negb _); [|discriminate].
    apply candidate_accepted in E1 as [-> [x Hx]].
    exists x. split; [exact Hx|]. apply unique_match_found; [discriminate|exact Hx]. }
  clear E1.
  match goal with
  | |- (tsel <- ?c ;;; _) = _ -> _ => destruct c as [[s2|]|err] eqn:E2
  end; cbn [cbind]; [| |discriminate].
  { intros [= <-]. right. right.
    destruct (truthy (data_testid e)); [|discriminate].
    apply candidate_accepted in E2 as [-> [x Hx]].
    exists x. split; [exact Hx|]. apply unique_match_found; [discriminate|exact Hx]. }
  clear E2.
  match goal with
  | |- (csel <- ?c ;;; _) = _ -> _ => destruct c as [[s3|]|err] eqn:E3
  end; cbn [cbind]; [| |discriminate].
  { intros [= <-]. right. right.
    destruct (truthy (className e)); [|discriminate].
    destruct (0 <? _)%nat; [|discriminate].
    apply candidate_accepted in E3 as [-> [x Hx]].
    exists x. split; [exact Hx|].
    apply unique_match_found; [apply string_app_cons_nonempty|exact Hx]. }
  intros [= <-]. right. left. reflexivity.
Qed.

Lemma generateSelector_result_witness :
  exists x,
    querySelectorAll Demo.page "#prompt-textarea" = Normal [x]
    /\ findElement Demo.page (Some "#prompt-textarea") = Normal (Some x).
Proof.
  destruct (generateSelector_result Demo.page Demo.e_prompt "#prompt-textarea")
    as [H|[H|H]].
  - reflexivity.
  - discriminate.
  - discriminate.
  - exact H.
Defined.

(** The tag+class candidate is the first one tried for an element
    without id and test id, and its rejection is not caught. *)
Lemma generateSelector_class_rejected (pg : Page) (e : Element) (c err : string) :
  node e <> node (body pg) ->
  el_id e = EmptyString ->
  data_testid e = None ->
  className e = Some c ->
  c <> EmptyString ->
  let classes :=
    take 2 (List.filter (fun k => negb (String.eqb k EmptyString)
                                  && negb (startsWith k "wfe-"))
                        (split_space c)) in
  classes <> [] ->
  querySelectorAll pg (toLowerCase (tagName e) +:+ "." +:+ String.concat "." classes)
  = Throw err ->
  generateSelector pg (Some e) = Throw err.
Proof.
  intros Hbody Hid Htest Hclass Hc classes Hne Hq.
  unfold generateSelector.
  destruct (decide (node e = node (body pg))) as [?|_]; [contradiction|].
  rewrite Hid, Htest, Hclass. cbn [String.eqb negb andb truthy cbind].
  apply truthy_Some in Hc. cbn [truthy] in Hc. rewrite Hc.
  rewrite or_else_truthy by (apply truthy_Some; exact Hc).
  fold classes. destruct classes as [|k ks]; [contradiction|].
  change (0 <? length (k :: ks))%nat with true. cbv iota.
  unfold qsa_length_is_1. rewrite Hq. reflexivity.
Qed.

(** X4.  The synthesizer has no [try]/[catch] of its own.  For an element
    without an id and without a test id, whose class attribute has at
    least one class that is not the editor's, a rejection of the tag+class
    candidate by the selector engine is raised to the caller.  (The
    locator returns none in the same situation.) *)
Theorem generateSelector_raises (pg : Page) (e : Element) (c err : string) :
  node e <> node (body pg) ->
  el_id e = EmptyString ->
  data_testid e = None ->
  className e = Some c ->
  c <> EmptyString ->
  let classes :=
    take 2 (List.filter (fun k => negb (String.eqb k EmptyString)
                                  && negb (startsWith k "wfe-"))
                        (split_space c)) in
  classes <> [] ->
  querySelectorAll pg (toLowerCase (tagName e) +:+ "." +:+ String.concat "." classes)
  = Throw err ->
  generateSelector pg (Some e) = Throw err
  /\ findElement pg (Some (toLowerCase (tagName e) +:+ "."
                           +:+ String.concat "." classes)) = Normal None.
Proof.
  intros Hbody Hid Htest Hclass Hc classes Hne Hq. split.
  - apply (generateSelector_class_rejected pg e c err); assumption.
  - apply findElement_syntax_error with err.
    rewrite or_else_truthy; [exact Hq|apply string_app_cons_nonempty].
Qed.

Lemma generateSelector_raises_witness :
  generateSelector Strict.page (Some Strict.e_card) = Throw "SyntaxError"
  /\ findElement Strict.page (Some "div.md:flex.card") = Normal None.
Proof.
  apply (generateSelector_raises Strict.page Strict.e_card "md:flex card" "SyntaxError").
  - simpl. lia.
  - reflexivity.
  - reflexivity.
  - reflexivity.
  - discriminate.
  - discriminate.
  - reflexivity.
Defined.

(** ** The markers on the page and in the collection *)

Lemma ball_nodes_app (ns ms : list EditorNode) :
  ball_nodes (ns ++ ms) = (ball_nodes ns ++ ball_nodes ms)%list.
Proof. apply omap_app. Qed.

Lemma ball_nodes_filter (p : EditorNode -> bool) (ns : list EditorNode) :
  ball_nodes (List.filter p ns)
  = List.filter (fun i => p (NBall i)) (ball_nodes ns).
Proof.
  unfold ball_nodes. induction ns as [|n ns IH]; [reflexivity|].
  destruct n as [i|i|i]; cbn.
  - destruct (p (NBall i)); cbn; rewrite IH; reflexivity.
  - destruct (p (NOverlay i)); cbn; exact IH.
  - destruct (p (NTip i)); cbn; exact IH.
Qed.

Lemma filter_all {A} (p : A -> bool) (l : list A) :
  (forall x, In x l -> p x = true) -> List.filter p l = l.
Proof.
  induction l as [|a l IH]; intros H; [reflexivity|].
  cbn. rewrite (H a) by (left; reflexivity). f_equal.
  apply IH. intros x Hx. apply H. right. exact Hx.
Qed.

Lemma filter_none {A} (p : A -> bool) (l : list A) :
  (forall x, In x l -> p x = false) -> List.filter p l = [].
Proof.
  induction l as [|a l IH]; intros H; [reflexivity|].
  cbn. rewrite (H a) by (left; reflexivity).
  apply IH. intros x Hx. apply H. right. exact Hx.
Qed.

Lemma ball_nodes_remove_overlay (o : nat) (ns : list EditorNode) :
  ball_nodes (remove_node (NOverlay o) ns) = ball_nodes ns.
Proof.
  unfold remove_node. rewrite ball_nodes_filter. apply filter_all.
  intros i _. rewrite bool_decide_eq_false_2 by discriminate. reflexivity.
Qed.

Lemma ball_nodes_remove_tip (t : nat) (ns : list EditorNode) :
  ball_nodes (remove_node (NTip t) ns) = ball_nodes ns.
Proof.
  unfold remove_node. rewrite ball_nodes_filter. apply filter_all.
  intros i _. rewrite bool_decide_eq_false_2 by discriminate. reflexivity.
Qed.

Lemma ball_nodes_remove_ball (i : nat) (ns : list EditorNode) :
  ball_nodes (remove_node (NBall i) ns)
  = List.filter (fun j => negb (bool_decide (j = i))) (ball_nodes ns).
Proof.
  unfold remove_node. rewrite ball_nodes_filter.
  apply List.filter_ext. intros j.
  destruct (decide (j = i)) as [->|Hne].
  - rewrite !bool_decide_eq_true_2 by reflexivity. reflexivity.
  - rewrite (bool_decide_eq_false_2 (NBall j = NBall i)) by congruence.
    rewrite (bool_decide_eq_false_2 (j = i)) by assumption. reflexivity.
Qed.

(** [clearAll] detaches the node of every marker of the collection. *)
Lemma ball_nodes_destroy_all (l : list Ball.t) (ns : list EditorNode) :
  ball_nodes (foldr (fun b ns => remove_node (NBall (Ball.id b)) ns) ns l)
  = List.filter (fun j => negb (bool_decide (j ∈ Ball.id <$> l))) (ball_nodes ns).
Proof.
  induction l as [|b l IH]; cbn [foldr].
  - symmetry. apply filter_all. intros j _.
    rewrite bool_decide_eq_false_2; [reflexivity|]. cbn. apply not_elem_of_nil.
  - rewrite ball_nodes_remove_ball, IH. clear IH.
    generalize (ball_nodes ns). intros js.
    induction js as [|j js IHj]; [reflexivity|].
    cbn [List.filter fmap list_fmap].
    destruct (decide (j ∈ Ball.id <$> l)) as [Hin|Hnin].
    + rewrite (bool_decide_eq_true_2 (j ∈ Ball.id <$> l)) by exact Hin.
      rewrite (bool_decide_eq_true_2 (j ∈ Ball.id b :: (Ball.id <$> l)))
        by (right; exact Hin).
      cbn. exact IHj.
    + rewrite (bool_decide_eq_false_2 (j ∈ Ball.id <$> l)) by exact Hnin.
      cbn [negb List.filter].
      destruct (decide (j = Ball.id b)) as [->|Hne].
      * rewrite (bool_decide_eq_true_2 (Ball.id b = Ball.id b)) by reflexivity.
        rewrite (bool_decide_eq_true_2 (Ball.id b ∈ Ball.id b :: (Ball.id <$> l)))
          by left.
        cbn. exact IHj.
      * rewrite (bool_decide_eq_false_2 (j = Ball.id b)) by exact Hne.
        rewrite (bool_decide_eq_false_2 (j ∈ Ball.id b :: (Ball.id <$> l))).
        -- cbn. f_equal. exact IHj.
        -- intros H. apply elem_of_cons in H as [H|H]; contradiction.
Qed.

Lemma remove_node_fresh (n : EditorNode) (ns : list EditorNode) (f : nat) :
  Forall (fun m => (node_number m < f)%nat) ns ->
  Forall (fun m => (node_number m < f)%nat) (remove_node n ns).
Proof.
  intros H. unfold remove_node. apply List.Forall_forall.
  intros m Hm. apply filter_In in Hm as [Hm _].
  rewrite List.Forall_forall in H. auto.
Qed.

(** Removing nodes that are not there changes nothing. *)
Lemma remove_node_absent (n : EditorNode) (ns : list EditorNode) :
  n ∉ ns -> remove_node n ns = ns.
Proof.
  induction ns as [|m ns IH]; intros Hn; [reflexivity|].
  unfold remove_node in *. cbn [List.filter].
  rewrite bool_decide_eq_false_2.
  - cbn. rewrite IH; [reflexivity|]. intros H. apply Hn. right. exact H.
  - intros ->. apply Hn. left.
Qed.

Lemma filter_out_unique (l : list nat) (idx i : nat) :
  NoDup l -> l !! idx = Some i ->
  List.filter (fun j => negb (bool_decide (j = i))) l = delete idx l.
Proof.
  revert idx. induction l as [|a l IH]; intros idx Hnd Hl; [discriminate|].
  apply NoDup_cons in Hnd as [Ha Hnd]. destruct idx as [|idx]; cbn in *.
  - injection Hl as ->. rewrite bool_decide_eq_true_2 by reflexivity. cbn.
    clear IH. induction l as [|b l IHl]; [reflexivity|].
    apply NoDup_cons in Hnd as [_ Hnd]. cbn [List.filter].
    rewrite bool_decide_eq_false_2.
    + cbn. f_equal. apply IHl; [|exact Hnd]. intros H. apply Ha. right. exact H.
    + intros ->. apply Ha. left.
  - rewrite bool_decide_eq_false_2.
    + cbn. f_equal. apply IH; assumption.
    + intros ->. apply Ha. apply list_elem_of_lookup. eauto.
Qed.

Lemma ids_below_fresh (w : World) :
  world_ok w -> Forall (fun i => (i < fresh w)%nat) (Ball.id <$> steps w).
Proof.
  intros [_ Hnodes Hfresh _]. rewrite <- Hnodes. clear Hnodes.
  induction (body_nodes w) as [|n ns IH]; [constructor|].
  apply Forall_cons in Hfresh as [Hn Hns].
  destruct n as [i|i|i]; cbn [ball_nodes omap]; cbn; auto.
Qed.

Lemma initial_world_ok : world_ok initial_world.
Proof. split; cbn; try constructor. Qed.

(** A handler that rewrites markers in place, keeping identities and
    sequence numbers. *)
Lemma world_ok_same_markers (w w' : World) :
  world_ok w ->
  Ball.id <$> steps w' = Ball.id <$> steps w ->
  Ball.seq <$> steps w' = Ball.seq <$> steps w ->
  body_nodes w' = body_nodes w ->
  fresh w' = fresh w ->
  world_ok w'.
Proof.
  intros [Hnd Hnodes Hfresh Hseq] Hid Hs Hb Hf. split.
  - rewrite Hid. exact Hnd.
  - rewrite Hb, Hid. exact Hnodes.
  - rewrite Hb, Hf. exact Hfresh.
  - unfold seq_ok in *. rewrite Hs, Hseq. f_equal.
    rewrite <- (length_fmap Ball.id (steps w')), Hid, length_fmap. reflexivity.
Qed.

Lemma addBall_world (pg : Page) (ty : BallType) (cfg : StepConfig) (w : World) :
  exists (b : Ball.t) (w' : World),
    addBall pg ty cfg w = Normal (b, w')
    /\ steps w' = (steps w ++ [b])%list
    /\ Ball.id b = fresh w
    /\ Ball.seq b = S (length (steps w))
    /\ body_nodes w' = (body_nodes w ++ [NBall (fresh w)])%list
    /\ fresh w' = S (fresh w)
    /\ pickOverlay w' = pickOverlay w
    /\ overlays w' = overlays w.
Proof.
  unfold addBall.
  replace (length (steps w) + 1)%nat with (S (length (steps w))) by lia.
  assert (Hov : forall ns : list EditorNode,
             omap (fun n => match n with NOverlay o => Some o | _ => None end)
                  (ns ++ [NBall (fresh w)])%list
             = omap (fun n => match n with NOverlay o => Some o | _ => None end) ns).
  { intros ns. rewrite omap_app. cbn. apply app_nil_r. }
  destruct (truthy (sc_selector_value cfg)).
  - destruct (findElement_returns pg (sc_selector_value cfg)) as [r Hr].
    rewrite Hr. destruct r as [e|]; cbn [cbind];
      (eexists _, _; split; [reflexivity|]);
      destruct (bool_decide (ty = READ) && negb true);
      repeat split; try reflexivity; apply Hov.
  - cbn [cbind]. eexists _, _. split; [reflexivity|].
    destruct (bool_decide (ty = READ) && negb false);
      repeat split; try reflexivity; apply Hov.
Qed.

Lemma addBall_ok (pg : Page) (ty : BallType) (cfg : StepConfig) (w : World)
    (b : Ball.t) (w' : World) :
  world_ok w -> addBall pg ty cfg w = Normal (b, w') -> world_ok w'.
Proof.
  intros Hok Hadd.
  destruct (addBall_world pg ty cfg w)
    as (b0 & w0 & Hadd0 & Hs & Hid & Hseq & Hb & Hf & _).
  rewrite Hadd in Hadd0. injection Hadd0 as <- <-.
  pose proof (ids_below_fresh w Hok) as Hlt.
  destruct Hok as [Hnd Hnodes Hfresh Hsq]. split.
  - rewrite Hs, fmap_app. cbn. apply NoDup_app. split; [exact Hnd|].
    split; [|apply NoDup_singleton].
    intros i Hi Hi'. apply list_elem_of_singleton in Hi'. subst i.
    rewrite List.Forall_forall in Hlt. apply list_elem_of_In, Hlt in Hi. lia.
  - rewrite Hb, Hs, ball_nodes_app, fmap_app, Hnodes. cbn. rewrite Hid. reflexivity.
  - rewrite Hb, Hf. apply Forall_app. split.
    + eapply Forall_impl; [exact Hfresh|]. cbn. intros; lia.
    + repeat constructor.
  - unfold seq_ok in *. rewrite Hs, fmap_app, length_app, Hsq. cbn.
    rewrite Hseq, seq_app. cbn.
    replace (length (steps w) + 1)%nat with (S (length (steps w))) by lia.
    reflexivity.
Qed.

Lemma indexOf_spec (l : list Ball.t) (ball : Ball.t) (idx : nat) :
  NoDup (Ball.id <$> l) ->
  l !! idx = Some ball ->
  indexOf l ball = Some idx.
Proof.
  intros Hnd Hl. unfold indexOf.
  destruct (list_find (fun b => Ball.id b = Ball.id ball) l) as [[i b]|] eqn:Hf.
  - apply list_find_Some in Hf as (Hi & Hid & _). cbn. f_equal.
    eapply NoDup_lookup; [exact Hnd| |].
    + rewrite list_lookup_fmap, Hi. cbn. rewrite Hid. reflexivity.
    + rewrite list_lookup_fmap, Hl. reflexivity.
  - exfalso. eapply list_find_None in Hf. rewrite List.Forall_forall in Hf.
    apply (Hf ball); [|reflexivity].
    apply list_elem_of_In, list_elem_of_lookup. eauto.
Qed.

Lemma indexOf_found (l : list Ball.t) (ball : Ball.t) (idx : nat) :
  indexOf l ball = Some idx ->
  exists b, l !! idx = Some b /\ Ball.id b = Ball.id ball.
Proof.
  unfold indexOf.
  destruct (list_find _ l) as [[i b]|] eqn:Hf; [|discriminate].
  intros [= <-]. apply list_find_Some in Hf as (Hi & Hid & _). eauto.
Qed.

Lemma renumber_ids (l : list Ball.t) : Ball.id <$> renumber l = Ball.id <$> l.
Proof.
  unfold renumber. apply list_eq. intros i.
  rewrite !list_lookup_fmap, list_lookup_imap.
  destruct (l !! i); reflexivity.
Qed.

Lemma fmap_delete {A B} (f : A -> B) (l : list A) (i : nat) :
  f <$> delete i l = delete i (f <$> l).
Proof.
  revert i. induction l as [|a l IH]; intros [|i]; cbn; try reflexivity.
  f_equal. apply IH.
Qed.

Lemma NoDup_delete {A} (l : list A) (i : nat) : NoDup l -> NoDup (delete i l).
Proof.
  intros H. eapply sublist_NoDup; [exact H|apply sublist_delete].
Qed.

Lemma removeBall_ok (ball : Ball.t) (w : World) :
  world_ok w -> world_ok (removeBall ball w).
Proof.
  intros Hok. unfold removeBall.
  destruct (indexOf (steps w) ball) as [idx|] eqn:Hidx; [|exact Hok].
  destruct (indexOf_found _ _ _ Hidx) as (b & Hb & Hid).
  destruct Hok as [Hnd Hnodes Hfresh Hsq]. split; cbn.
  - rewrite renumber_ids, fmap_delete. apply NoDup_delete, Hnd.
  - rewrite renumber_ids, fmap_delete, ball_nodes_remove_ball, Hnodes.
    apply filter_out_unique; [exact Hnd|].
    rewrite list_lookup_fmap, Hb. cbn. rewrite Hid. reflexivity.
  - apply remove_node_fresh, Hfresh.
  - apply renumber_seq_ok.
Qed.

Lemma clearAll_ok (w : World) : world_ok w -> world_ok (clearAll w).
Proof.
  intros [Hnd Hnodes Hfresh Hsq]. unfold clearAll. split; cbn.
  - constructor.
  - rewrite ball_nodes_destroy_all, Hnodes. apply filter_none.
    intros j Hj. rewrite bool_decide_eq_true_2; [reflexivity|].
    apply list_elem_of_In, Hj.
  - clear Hnd Hnodes Hsq.
    induction (steps w) as [|b l IH]; [exact Hfresh|].
    cbn [foldr]. apply remove_node_fresh, IH.
  - reflexivity.
Qed.

Lemma world_ok_picker_fields (w : World) (cfg : option SiteConfig)
    (ip : bool) (cb : option nat) (vis : bool) (po pt hl : option nat)
    (kd : bool) (ts : list Timer) (al : list string) :
  world_ok w ->
  world_ok (mkWorld (steps w) cfg ip cb vis po pt hl (body_nodes w) kd ts al (fresh w)).
Proof.
  intros Hok. apply (world_ok_same_markers w); [exact Hok|reflexivity..].
Qed.

Lemma startPicker_ok (ball : nat) (w : World) :
  world_ok w -> world_ok (startPicker ball w).
Proof.
  intros [Hnd Hnodes Hfresh Hsq]. unfold startPicker. split; cbn.
  - exact Hnd.
  - rewrite ball_nodes_app, Hnodes. cbn. apply app_nil_r.
  - apply Forall_app. split.
    + eapply Forall_impl; [exact Hfresh|]. cbn. intros; lia.
    + repeat constructor; cbn; lia.
  - exact Hsq.
Qed.

Lemma endPicker_ok (w : World) : world_ok w -> world_ok (endPicker w).
Proof.
  intros [Hnd Hnodes Hfresh Hsq]. unfold endPicker. split; cbn.
  - exact Hnd.
  - destruct (pickTip w), (pickOverlay w);
      rewrite ?ball_nodes_remove_tip, ?ball_nodes_remove_overlay; exact Hnodes.
  - destruct (pickTip w), (pickOverlay w);
      repeat apply remove_node_fresh; exact Hfresh.
  - exact Hsq.
Qed.

Lemma update_ball_ids (ball : nat) (f : Ball.t -> Ball.t) (l : list Ball.t) :
  (forall b, b ∈ l -> Ball.id b = ball -> Ball.id (f b) = Ball.id b) ->
  Ball.id <$> update_ball ball f l = Ball.id <$> l.
Proof.
  intros Hf. unfold update_ball. rewrite <- list_fmap_compose.
  apply list_fmap_ext. intros i b Hb. cbn.
  destruct (decide (Ball.id b = ball)) as [Hid|_]; [|reflexivity].
  apply Hf; [|exact Hid]. apply list_elem_of_lookup. eauto.
Qed.

Lemma update_ball_seqs (ball : nat) (f : Ball.t -> Ball.t) (l : list Ball.t) :
  (forall b, b ∈ l -> Ball.id b = ball -> Ball.seq (f b) = Ball.seq b) ->
  Ball.seq <$> update_ball ball f l = Ball.seq <$> l.
Proof.
  intros Hf. unfold update_ball. rewrite <- list_fmap_compose.
  apply list_fmap_ext. intros i b Hb. cbn.
  destruct (decide (Ball.id b = ball)) as [Hid|_]; [|reflexivity].
  apply Hf; [|exact Hid]. apply list_elem_of_lookup. eauto.
Qed.

Lemma same_id_same_ball (l : list Ball.t) (x y : Ball.t) :
  NoDup (Ball.id <$> l) -> x ∈ l -> y ∈ l -> Ball.id x = Ball.id y -> x = y.
Proof.
  intros Hnd Hx Hy Hid.
  apply list_elem_of_lookup in Hx as [i Hi].
  apply list_elem_of_lookup in Hy as [j Hj].
  assert (i = j).
  { eapply NoDup_lookup; [exact Hnd| |].
    - rewrite list_lookup_fmap, Hi. reflexivity.
    - rewrite list_lookup_fmap, Hj. cbn. rewrite Hid. reflexivity. }
  subst j. congruence.
Qed.

Lemma locateToElement_keeps (pg : Page) (b b' : Ball.t) :
  Ball.locateToElement pg b = Normal b' ->
  Ball.id b' = Ball.id b /\ Ball.seq b' = Ball.seq b
  /\ Ball.config b' = Ball.config b /\ Ball.isWarning b' = Ball.isWarning b
  /\ Ball.type b' = Ball.type b.
Proof.
  unfold Ball.locateToElement.
  destruct (findElement pg _) as [[e|]|err]; cbn [cbind]; [| |discriminate];
    intros [= <-]; repeat split.
Qed.

Lemma runPickingCallback_ok (pg : Page) (ball : nat) (sel : string) (w : World) :
  world_ok w -> world_ok (fst (runPickingCallback pg ball sel w)).
Proof.
  intros Hok. unfold runPickingCallback.
  set (w1 := set_steps w (update_ball ball (set_selector sel) (steps w))).
  assert (Hok1 : world_ok w1).
  { apply (world_ok_same_markers w); try reflexivity; [exact Hok| |]; cbn.
    - apply update_ball_ids. reflexivity.
    - apply update_ball_seqs. reflexivity. }
  destruct (List.find _ (steps w1)) as [b|] eqn:Hfind; [|exact Hok1].
  destruct (Ball.locateToElement pg b) as [b'|err] eqn:Hloc; [|exact Hok1].
  apply find_some in Hfind as [Hin Hid]. apply bool_decide_eq_true in Hid.
  apply list_elem_of_In in Hin.
  destruct (locateToElement_keeps pg b b' Hloc) as (Hi & Hs & _).
  cbn [fst]. apply (world_ok_same_markers w1); try reflexivity; [exact Hok1| |].
  - change (steps (set_steps w1 ?l)) with l. apply update_ball_ids.
    intros x _ Hx. congruence.
  - change (steps (set_steps w1 ?l)) with l. apply update_ball_seqs.
    intros x Hxin Hx. rewrite Hs. f_equal.
    apply (same_id_same_ball (steps w1)); [apply Hok1|exact Hin|exact Hxin|congruence].
Qed.

Lemma onPickClick_ok (pg : Page) (target : option Element) (w : World) :
  world_ok w -> world_ok (fst (onPickClick pg target w)).
Proof.
  intros Hok. unfold onPickClick.
  destruct target as [t|]; [|apply endPicker_ok, Hok].
  destruct (highlighted w); [|apply endPicker_ok, Hok].
  destruct (pickingCallback w) as [ball|]; [|apply endPicker_ok, Hok].
  destruct (generateSelector pg (Some t)) as [sel|err]; [|exact Hok].
  pose proof (runPickingCallback_ok pg ball sel w Hok) as H.
  destruct (runPickingCallback pg ball sel w) as [w1 [e|]]; cbn [fst] in *.
  - exact H.
  - apply endPicker_ok, H.
Qed.

Lemma decodeStep_ok (pg : Page) (sels : gmap string string) (w w' : World)
    (p p' : Qc) (r : Step) :
  world_ok w -> decodeStep pg sels (w, p) r = Normal (w', p') -> world_ok w'.
Proof.
  intros Hok. unfold decodeStep.
  destruct (String.eqb (action r) "WAIT"); [intros [= <- _]; exact Hok|].
  destruct (negb _); [intros [= <- _]; exact Hok|].
  destruct (String.eqb (action r) "CLICK");
    [|destruct (String.eqb (action r) "FILL_INPUT")].
  all: match goal with
       | |- context [addBall ?pg0 ?ty ?cfg ?w0] =>
           destruct (addBall pg0 ty cfg w0) as [[b w1]|err] eqn:Hadd
       end; cbn [cbind snd]; [|discriminate].
  all: intros [= <- _]; eapply addBall_ok; eassumption.
Qed.

Lemma forEach_ok (pg : Page) (sels : gmap string string) (L : list Step) :
  forall (w w' : World) (p p' : Qc),
    world_ok w ->
    forEach (decodeStep pg sels) L (w, p) = Normal (w', p') ->
    world_ok w'.
Proof.
  induction L as [|r L IH]; intros w w' p p' Hok; cbn [forEach].
  - intros [= <- _]. exact Hok.
  - destruct (decodeStep pg sels (w, p) r) as [[w1 p1]|err] eqn:Hd;
      cbn [cbind]; [|discriminate].
    apply IH. eapply decodeStep_ok; eassumption.
Qed.

Lemma summarize_ok (w : World) : world_ok w -> world_ok (summarize w).
Proof.
  intros Hok. unfold summarize. destruct (0 <? _)%nat; [|exact Hok].
  apply (world_ok_same_markers w); [exact Hok|reflexivity..].
Qed.

Lemma loadFromConfig_ok (pg : Page) (cfg : option SiteConfig) (w w' : World) :
  world_ok w -> loadFromConfig pg cfg w = Normal w' -> world_ok w'.
Proof.
  intros Hok. unfold loadFromConfig.
  destruct cfg as [c|]; [|intros [= <-]; exact Hok].
  destruct (workflow c) as [L|]; [|intros [= <-]; exact Hok].
  destruct (selectors c) as [sels|]; [|intros [= <-]; exact Hok].
  destruct (forEach _ _ _) as [[w1 p1]|err] eqn:Hf; cbn [cbind fst]; [|discriminate].
  intros [= <-]. apply summarize_ok.
  eapply forEach_ok; [|exact Hf].
  apply (world_ok_same_markers (clearAll w)); [apply clearAll_ok, Hok|reflexivity..].
Qed.

Lemma fireTimer_ok (w : World) : world_ok w -> world_ok (fireTimer w).
Proof.
  intros Hok. unfold fireTimer.
  destruct (min_delay (timers w)) as [d|]; [|exact Hok].
  destruct (take_due d (timers w)) as [[t rest]|]; [|exact Hok].
  destruct (task t) as [b|msg].
  - apply startPicker_ok.
    apply (world_ok_same_markers w); [exact Hok|reflexivity..].
  - apply (world_ok_same_markers w); [exact Hok|reflexivity..].
Qed.

Lemma handle_ok (pg : Page) (ev : Event) (w : World) :
  world_ok w -> world_ok (handle pg ev w).
Proof.
  intros Hok.
  destruct ev as [ty cfg|ball| |cfg| |ball|tgt|tgt|key| | |ball button cx cy|cx cy|];
    cbn [handle].
  - destruct (addBall pg ty cfg w) as [[b w']|err] eqn:Hadd; cbn; [|exact Hok].
    eapply addBall_ok; eassumption.
  - apply removeBall_ok, Hok.
  - apply clearAll_ok, Hok.
  - destruct (loadFromConfig pg cfg w) as [w'|err] eqn:Hl; cbn; [|exact Hok].
    eapply loadFromConfig_ok; eassumption.
  - unfold WorkflowEditor_reload.
    destruct (loadFromConfig pg (siteConfig w) w) as [w'|err] eqn:Hl; cbn; [|exact Hok].
    eapply loadFromConfig_ok; eassumption.
  - apply startPicker_ok, Hok.
  - destruct (bool_decide _); [exact Hok|]. unfold onPickMove.
    destruct tgt as [t|]; [|exact Hok].
    destruct (negb _ && negb _); [|exact Hok].
    apply (world_ok_same_markers w); [exact Hok|reflexivity..].
  - destruct (bool_decide _); [exact Hok|]. apply onPickClick_ok, Hok.
  - destruct (keydown_onPickKey w); [|exact Hok]. unfold onPickKey.
    destruct (String.eqb key "Escape"); [apply endPicker_ok, Hok|exact Hok].
  - unfold hideEditor. apply (world_ok_same_markers (endPicker w));
      [apply endPicker_ok, Hok|reflexivity..].
  - apply fireTimer_ok, Hok.
  - apply (world_ok_same_markers w); try reflexivity; [exact Hok| |]; cbn.
    + apply update_ball_ids. intros b _ _. unfold Ball_onMouseDown.
      destruct (negb _ || _); reflexivity.
    + apply update_ball_seqs. intros b _ _. unfold Ball_onMouseDown.
      destruct (negb _ || _); reflexivity.
  - unfold document_onMouseMove.
    destruct (List.find Ball.isDragging (steps w)) as [ball|]; [|exact Hok].
    apply (world_ok_same_markers w); try reflexivity; [exact Hok| |]; cbn.
    + apply update_ball_ids. reflexivity.
    + apply update_ball_seqs. reflexivity.
  - apply (world_ok_same_markers w); try reflexivity; [exact Hok| |]; cbn.
    + rewrite <- list_fmap_compose. apply list_fmap_ext. intros i b _. cbn.
      unfold stopDragging. destruct (Ball.isDragging b); reflexivity.
    + rewrite <- list_fmap_compose. apply list_fmap_ext. intros i b _. cbn.
      unfold stopDragging. destruct (Ball.isDragging b); reflexivity.
Qed.

(** X5.  In every state the editor can reach — by adding, removing,
    clearing, loading or reloading a profile, starting, moving, clicking
    or cancelling the picker, hiding the editor, a timer firing, or
    dragging — the markers have pairwise distinct identities, the marker
    nodes attached to the page are exactly the markers of the collection
    in the same order, and the sequence numbers are 1..N. *)
Theorem reachable_world_ok (pg : Page) (w : World) :
  reachable pg w -> world_ok w.
Proof.
  induction 1 as [|ev w _ IH].
  - apply initial_world_ok.
  - apply handle_ok, IH.
Qed.

Lemma reachable_world_ok_witness :
  world_ok (handle Demo.page (EvRemoveBall
                                (Ball.constructor 0
                                   (Ball.mkOpts CLICK 1 None None empty_config)))
              (handle Demo.page (EvAddBall READ empty_config)
                 (handle Demo.page (EvAddBall CLICK empty_config) initial_world))).
Proof.
  apply (reachable_world_ok Demo.page).
  do 3 apply reach_handle. apply reach_initial.
Defined.

(** ** Removing a marker *)

Lemma indexOf_absent (l : list Ball.t) (ball : Ball.t) :
  Ball.id ball ∉ Ball.id <$> l -> indexOf l ball = None.
Proof.
  intros Hn. unfold indexOf.
  destruct (list_find _ l) as [[i b]|] eqn:Hf; [|reflexivity].
  apply list_find_Some in Hf as (Hi & Hid & _). exfalso. apply Hn.
  rewrite <- Hid. apply list_elem_of_fmap. exists b. split; [reflexivity|].
  apply list_elem_of_lookup. eauto.
Qed.

(** X6.  Removing a marker that is not in the collection changes nothing.
    Removing the marker at some index takes exactly that marker out: the
    others stay in their order, and each keeps its identity, kind,
    position, text, selector, key, radius and warning; it is renumbered to
    its new place, and its delay is kept unless it has become the first,
    whose delay is set to 0. *)
Theorem removeBall_keeps_others (w : World) (ball : Ball.t) :
  world_ok w ->
  (Ball.id ball ∉ Ball.id <$> steps w -> removeBall ball w = w)
  /\ (forall idx : nat,
        steps w !! idx = Some ball ->
        let w' := removeBall ball w in
        Ball.id <$> steps w' = delete idx (Ball.id <$> steps w)
        /\ (Ball.id ball ∉ Ball.id <$> steps w')
        /\ (forall (i : nat) (b' : Ball.t),
              steps w' !! i = Some b' ->
              exists b0,
                delete idx (steps w) !! i = Some b0
                /\ Ball.id b' = Ball.id b0
                /\ Ball.type b' = Ball.type b0
                /\ Ball.x b' = Ball.x b0
                /\ Ball.y b' = Ball.y b0
                /\ text (Ball.config b') = text (Ball.config b0)
                /\ selector (Ball.config b') = selector (Ball.config b0)
                /\ targetKey (Ball.config b') = targetKey (Ball.config b0)
                /\ random_radius (Ball.config b') = random_radius (Ball.config b0)
                /\ Ball.isWarning b' = Ball.isWarning b0
                /\ Ball.seq b' = S i
                /\ delay_ms (Ball.config b')
                   = (if (i =? 0)%nat then 0%Qc else delay_ms (Ball.config b0)))).
Proof.
  intros Hok. split.
  - intros Hn. unfold removeBall. rewrite indexOf_absent by exact Hn. reflexivity.
  - intros idx Hidx. cbn zeta.
    pose proof (indexOf_spec (steps w) ball idx (ok_nodup w Hok) Hidx) as Hi.
    rewrite removeBall_steps, Hi. split; [|split].
    + rewrite renumber_ids. apply fmap_delete.
    + rewrite renumber_ids, fmap_delete.
      assert (Hl : (Ball.id <$> steps w) !! idx = Some (Ball.id ball))
        by (rewrite list_lookup_fmap, Hidx; reflexivity).
      rewrite <- (filter_out_unique _ idx (Ball.id ball) (ok_nodup w Hok) Hl).
      intros Hin. apply list_elem_of_In, filter_In in Hin as [_ Hin].
      rewrite bool_decide_eq_true_2 in Hin by reflexivity. discriminate.
    + intros i b' Hb'. unfold renumber in Hb'.
      rewrite list_lookup_imap in Hb'.
      destruct (delete idx (steps w) !! i) as [b0|]; [|discriminate].
      injection Hb' as <-. exists b0. split; [reflexivity|].
      unfold Ball.updateSeq. cbn.
      replace (i + 1 =? 1)%nat with (i =? 0)%nat
        by (destruct i as [|i]; [reflexivity|];
            cbn; symmetry; apply Nat.eqb_neq; lia).
      destruct (i =? 0)%nat; cbn; repeat split; lia.
Qed.

Lemma removeBall_keeps_others_witness :
  exists b1 w1 b2 w2,
    addBall Demo.page CLICK empty_config initial_world = Normal (b1, w1)
    /\ addBall Demo.page INPUT empty_config w1 = Normal (b2, w2)
    /\ Ball.id <$> steps (removeBall b1 w2) = [Ball.id b2]
    /\ removeBall b1 (removeBall b1 w2) = removeBall b1 w2.
Proof.
  destruct (addBall_world Demo.page CLICK empty_config initial_world)
    as (b1 & w1 & Ha1 & Hs1 & Hid1 & _).
  destruct (addBall_world Demo.page INPUT empty_config w1)
    as (b2 & w2 & Ha2 & Hs2 & Hid2 & _).
  exists b1, w1, b2, w2. split; [exact Ha1|]. split; [exact Ha2|].
  assert (Hok1 : world_ok w1) by (eapply addBall_ok; [apply initial_world_ok|exact Ha1]).
  assert (Hok2 : world_ok w2) by (eapply addBall_ok; [exact Hok1|exact Ha2]).
  assert (Hl : steps w2 !! 0%nat = Some b1) by (rewrite Hs2, Hs1; reflexivity).
  destruct (removeBall_keeps_others w2 b1 Hok2) as [_ Hpres].
  destruct (Hpres 0%nat Hl) as (Hids & Hgone & _).
  split.
  - rewrite Hids, Hs2, Hs1. reflexivity.
  - apply (removeBall_keeps_others (removeBall b1 w2) b1 (removeBall_ok b1 w2 Hok2)).
    exact Hgone.
Defined.

(** ** A picker session on its own *)






(** ** What decoding makes of a profile *)

Lemma addBall_full (pg : Page) (ty : BallType) (cfg : StepConfig) (w : World) :
  exists (b : Ball.t) (w' : World),
    addBall pg ty cfg w = Normal (b, w')
    /\ steps w' = (steps w ++ [b])%list
    /\ Ball.id b = fresh w
    /\ Ball.type b = ty
    /\ Ball.config b
       = Ball.config (Ball.constructor 0
                        (Ball.mkOpts ty (S (length (steps w))) None None cfg))
    /\ Ball.isWarning b
       = truthy (sc_selector_value cfg) && finds_nothing pg (sc_selector_value cfg)
    /\ timers w' = (timers w ++ if needs_picker b then [picker_timer b] else [])%list
    /\ siteConfig w' = siteConfig w.
Proof.
  unfold addBall, finds_nothing, needs_picker, picker_timer.
  replace (length (steps w) + 1)%nat with (S (length (steps w))) by lia.
  assert (Hsel : truthy (match sc_selector cfg with
                         | Some v => v
                         | None => Some EmptyString
                         end) = truthy (sc_selector_value cfg)).
  { unfold sc_selector_value. destruct (sc_selector cfg); reflexivity. }
  destruct (truthy (sc_selector_value cfg)) eqn:Ht.
  - destruct (findElement_returns pg (sc_selector_value cfg)) as [r Hr].
    rewrite Hr. destruct r as [e|]; cbn [cbind];
      (eexists _, _; split; [reflexivity|]);
      cbn; rewrite Hsel; cbn;
      destruct (bool_decide (ty = READ)); cbn;
      rewrite ?app_nil_r; repeat split.
  - cbn [cbind]. eexists _, _. split; [reflexivity|].
    cbn. rewrite Hsel. cbn.
    destruct (bool_decide (ty = READ)); cbn; rewrite ?app_nil_r; repeat split.
Qed.


Section DecodeSummary.

Context (pg : Page) (sels : gmap string string).


End DecodeSummary.













(** ** What saving builds *)

Lemma newWorkflow_from_0 (l : list Ball.t) : newWorkflow_from 0 l = newWorkflow l.
Proof. reflexivity. Qed.

Lemma newWorkflow_from_cons (k : nat) (b : Ball.t) (l : list Ball.t) :
  newWorkflow_from k (b :: l)
  = (waitRecord (delay_ms (Ball.config b))
     ++ ownRecord k b :: newWorkflow_from (S k) l)%list.
Proof.
  unfold newWorkflow_from. rewrite imap_cons. cbn [concat].
  rewrite Nat.add_0_r, <- app_assoc. cbn [app]. do 2 f_equal.
  f_equal. apply imap_ext. intros i x _. cbn. rewrite Nat.add_succ_r. reflexivity.
Qed.

Lemma at_most_one_wait_cons (a : Step) (L : list Step) :
  is_wait a = false -> at_most_one_wait (a :: L) = at_most_one_wait L.
Proof.
  intros Ha. destruct L as [|b L]; [reflexivity|].
  cbn [at_most_one_wait]. rewrite Ha. reflexivity.
Qed.

Lemma at_most_one_wait_before (a b : Step) (L : list Step) :
  is_wait b = false ->
  at_most_one_wait (a :: b :: L) = at_most_one_wait (b :: L).
Proof.
  intros Hb. cbn [at_most_one_wait]. rewrite Hb, andb_false_r. reflexivity.
Qed.

Lemma newWorkflow_from_at_most_one_wait (l : list Ball.t) :
  forall k, at_most_one_wait (newWorkflow_from k l) = true.
Proof.
  induction l as [|b l IH]; intros k; [reflexivity|].
  rewrite newWorkflow_from_cons. unfold waitRecord.
  destruct (decide _); cbn [app].
  - rewrite at_most_one_wait_before by apply ownRecord_not_wait.
    rewrite at_most_one_wait_cons by apply ownRecord_not_wait. apply IH.
  - rewrite at_most_one_wait_cons by apply ownRecord_not_wait. apply IH.
Qed.

Lemma seconds_positive (d : Qc) : (0 < d)%Qc -> (0 < d / thousand)%Qc.
Proof.
  intros Hd. apply Qcnot_le_lt. intros Hle.
  apply (Qclt_not_le _ _ Hd).
  rewrite <- (Qcmult_div_r d thousand thousand_nonzero), Qcmult_comm.
  rewrite <- (Qcmult_0_l thousand).
  apply Qcmult_le_compat_r; [exact Hle|].
  vm_compute. discriminate.
Qed.

Lemma newWorkflow_length (l : list Ball.t) :
  (length l <= length (newWorkflow l) <= 2 * length l)%nat.
Proof.
  induction l as [|b l IH] using rev_ind; [cbn; lia|].
  rewrite newWorkflow_snoc, !length_app. cbn [length].
  unfold waitRecord. destruct (decide _); cbn [length]; lia.
Qed.

Lemma newWorkflow_waits (l : list Ball.t) :
  Forall (fun r => is_wait r = true ->
                   target r = EmptyString
                   /\ exists q, value r = VNum q /\ (0 < q)%Qc)
         (newWorkflow l).
Proof.
  induction l as [|b l IH] using rev_ind; [constructor|].
  rewrite newWorkflow_snoc. apply Forall_app. split; [exact IH|].
  apply Forall_app. split.
  - unfold waitRecord. destruct (decide _) as [Hd|_]; [|constructor].
    constructor; [|constructor]. intros _. split; [reflexivity|].
    eexists. split; [reflexivity|]. apply seconds_positive, Hd.
  - constructor; [|constructor]. intros Hw.
    rewrite ownRecord_not_wait in Hw. discriminate.
Qed.

(** X13.  [doSave] refuses, with an alert and without a request, when no
    profile is loaded or there is no marker.  Otherwise it sends the
    page's host name and a workflow with exactly one non-Wait record per
    marker and at most one Wait before each: between N and 2N records, no
    two Waits in a row, no Wait at the end, and every Wait with an empty
    target and a positive number of seconds. *)
Theorem doSave_workflow_shape (pg : Page) (w : World) :
  (siteConfig w = None \/ steps w = [] -> exists msg, doSave pg w = SaveAlert msg)
  /\ (siteConfig w <> None -> steps w <> [] ->
      exists wf,
        doSave pg w = SavePut (hostname pg) wf
        /\ length (List.filter (fun r => negb (is_wait r)) wf) = length (steps w)
        /\ (length (steps w) <= length wf <= 2 * length (steps w))%nat
        /\ at_most_one_wait wf = true
        /\ (forall r, last wf = Some r -> is_wait r = false)
        /\ Forall (fun r => is_wait r = true ->
                            target r = EmptyString
                            /\ exists q, value r = VNum q /\ (0 < q)%Qc) wf).
Proof.
  unfold doSave. split.
  - intros [Hn|Hn]; rewrite Hn; [eauto|].
    destruct (siteConfig w); eauto.
  - intros Hcfg Hsteps. destruct (siteConfig w); [|contradiction].
    destruct (steps w) as [|b l] eqn:Hl; [contradiction|].
    change (length (b :: l) =? 0)%nat with false. cbv iota.
    eexists. split; [reflexivity|].
    rewrite newWorkflow_own_records, length_imap.
    split; [reflexivity|]. split; [apply newWorkflow_length|].
    split; [apply (newWorkflow_from_at_most_one_wait (b :: l) 0)|].
    split; [apply newWorkflow_last|apply newWorkflow_waits].
Qed.

Lemma doSave_workflow_shape_witness :
  let b := Ball.constructor 0 (Ball.mkOpts INPUT 1 None None empty_config) in
  let w := set_siteConfig (set_steps initial_world [b])
                          (Some (profile Demo.sels [])) in
  exists wf,
    doSave Demo.page w = SavePut "chat.example" wf
    /\ length (List.filter (fun r => negb (is_wait r)) wf) = 1%nat
    /\ at_most_one_wait wf = true.
Proof.
  intros b w.
  destruct (doSave_workflow_shape Demo.page w) as [_ H].
  destruct H as (wf & Hs & Hn & _ & Hamw & _).
  - discriminate.
  - discriminate.
  - exists wf. split; [exact Hs|]. split; [exact Hn|exact Hamw].
Defined.

(** ** Saving, reloading and saving again *)








(** ** Dragging *)

Lemma update_ball_insert (l : list Ball.t) (i : nat) (b : Ball.t)
    (f : Ball.t -> Ball.t) :
  NoDup (Ball.id <$> l) ->
  l !! i = Some b ->
  update_ball (Ball.id b) f l = <[i := f b]> l.
Proof.
  intros Hnd Hi. apply list_eq. intros j. unfold update_ball.
  rewrite list_lookup_fmap. destruct (decide (j = i)) as [->|Hne].
  - rewrite Hi, list_lookup_insert_eq by (eapply lookup_lt_Some; exact Hi).
    cbn. destruct (decide (Ball.id b = Ball.id b)); [reflexivity|contradiction].
  - rewrite list_lookup_insert_ne by congruence.
    destruct (l !! j) as [y|] eqn:Hj; [|reflexivity]. cbn.
    destruct (decide (Ball.id y = Ball.id b)) as [Hid|_]; [|reflexivity].
    exfalso. apply Hne. eapply NoDup_lookup; [exact Hnd| |].
    + rewrite list_lookup_fmap, Hj. reflexivity.
    + rewrite list_lookup_fmap, Hi. cbn. rewrite Hid. reflexivity.
Qed.

Lemma find_the_dragged (l : list Ball.t) (i : nat) (b1 : Ball.t) :
  Forall (fun b => Ball.isDragging b = false) l ->
  (i < length l)%nat ->
  Ball.isDragging b1 = true ->
  List.find Ball.isDragging (<[i := b1]> l) = Some b1.
Proof.
  intros Hall. revert i. induction Hall as [|a l Ha _ IH]; intros i Hi Hb1.
  - cbn in Hi. lia.
  - destruct i as [|i]; cbn.
    + rewrite Hb1. reflexivity.
    + rewrite Ha. apply IH; [cbn in Hi; lia|exact Hb1].
Qed.

Lemma find_none_dragged (l : list Ball.t) :
  Forall (fun b => Ball.isDragging b = false) l ->
  List.find Ball.isDragging l = None.
Proof.
  induction 1 as [|a l Ha _ IH]; [reflexivity|]. cbn. rewrite Ha. exact IH.
Qed.

Lemma stopDragging_all (l : list Ball.t) :
  Forall (fun b => Ball.isDragging b = false) (stopDragging <$> l).
Proof.
  apply Forall_fmap, List.Forall_forall. intros b _. cbn. unfold stopDragging.
  destruct (Ball.isDragging b) eqn:E; [reflexivity|exact E].
Qed.

(** X15.  Dragging follows the pointer and keeps the grab offset.  With
    no marker being dragged, a left-button press on a Click or Input
    marker followed by a pointer move puts that marker at the pointer
    position less the offset at which it was grabbed (when that lies in
    the clamping range), changes nothing else of it but the dragging
    flag and the offset, and leaves every other marker as it was; after
    the button is released no marker is being dragged and further pointer
    moves change nothing. *)
Theorem drag_follows_pointer (pg : Page) (w : World) (i : nat) (b : Ball.t)
    (cx cy mx my : Qc) :
  world_ok w ->
  Forall (fun b => Ball.isDragging b = false) (steps w) ->
  steps w !! i = Some b ->
  Ball.type b <> READ ->
  let nx := (mx - (cx - Ball.x b))%Qc in
  let ny := (my - (cy - Ball.y b))%Qc in
  (0 <= nx)%Qc -> (nx <= innerWidth pg - px28)%Qc ->
  (0 <= ny)%Qc -> (ny <= innerHeight pg - px28)%Qc ->
  let w2 := document_onMouseMove pg mx my (mousedown_on (Ball.id b) 0 cx cy w) in
  let w3 := document_onMouseUp w2 in
  steps w2
  = <[i := Ball.mk (Ball.id b) (Ball.type b) (Ball.seq b) nx ny (Ball.config b)
                   true (mkPoint (cx - Ball.x b) (cy - Ball.y b))%Qc
                   (Ball.isWarning b) (Ball.warningMessage b)]> (steps w)
  /\ Forall (fun b => Ball.isDragging b = false) (steps w3)
  /\ (forall mx' my', document_onMouseMove pg mx' my' w3 = w3).
Proof.
  intros Hok Hnone Hi Hty nx ny Hx0 Hx1 Hy0 Hy1 w2 w3.
  pose proof (lookup_lt_Some _ _ _ Hi) as Hlt.
  set (b1 := Ball_onMouseDown 0 cx cy b).
  assert (Hb1 : b1 = Ball.mk (Ball.id b) (Ball.type b) (Ball.seq b) (Ball.x b)
                        (Ball.y b) (Ball.config b) true
                        (mkPoint (cx - Ball.x b) (cy - Ball.y b))%Qc
                        (Ball.isWarning b) (Ball.warningMessage b)).
  { unfold b1, Ball_onMouseDown. cbn [Z.eqb negb orb].
    rewrite bool_decide_eq_false_2 by exact Hty. reflexivity. }
  assert (Hs1 : steps (mousedown_on (Ball.id b) 0 cx cy w) = <[i := b1]> (steps w)).
  { unfold mousedown_on. cbn [steps set_steps].
    apply update_ball_insert; [apply Hok|exact Hi]. }
  assert (Hs2 : steps w2
                = <[i := Ball.move pg b1 nx ny]> (steps w)).
  { unfold w2, document_onMouseMove. rewrite Hs1.
    rewrite (find_the_dragged _ i b1 Hnone Hlt) by (rewrite Hb1; reflexivity).
    cbn [steps set_steps].
    rewrite (update_ball_insert (<[i := b1]> (steps w)) i b1).
    - rewrite list_insert_insert_eq. rewrite Hb1. reflexivity.
    - rewrite list_fmap_insert. rewrite Hb1. cbn [Ball.id].
      rewrite list_insert_id; [apply Hok|].
      rewrite list_lookup_fmap, Hi. reflexivity.
    - apply list_lookup_insert_eq, Hlt. }
  split; [|split].
  - rewrite Hs2. f_equal.
    rewrite (move_in_range pg b1 nx ny Hx0 Hx1 Hy0 Hy1).
    rewrite Hb1. reflexivity.
  - unfold w3, document_onMouseUp. cbn [steps set_steps]. apply stopDragging_all.
  - intros mx' my'. unfold document_onMouseMove.
    rewrite find_none_dragged; [reflexivity|].
    unfold w3, document_onMouseUp. cbn [steps set_steps]. apply stopDragging_all.
Qed.

Lemma drag_follows_pointer_witness :
  exists b w,
    addBall Demo.page CLICK empty_config initial_world = Normal (b, w)
    /\ Ball.x <$> steps (document_onMouseMove Demo.page (num_of_Z 310) (num_of_Z 420)
                           (mousedown_on (Ball.id b) 0 (num_of_Z 110) (num_of_Z 405) w))
       = [(num_of_Z 310 - (num_of_Z 110 - Ball.x b))%Qc].
Proof.
  destruct (addBall_world Demo.page CLICK empty_config initial_world)
    as (b & w & Ha & Hs & _).
  assert (Hb : b = Ball.constructor 0
                     (Ball.mkOpts CLICK 1 (Some px100) (Some (num_of_Z 400)) empty_config)).
  { assert (H : addBall Demo.page CLICK empty_config initial_world
                = Normal (Ball.constructor 0
                            (Ball.mkOpts CLICK 1 (Some px100) (Some (num_of_Z 400))
                               empty_config),
                          snd (Ball.constructor 0
                                 (Ball.mkOpts CLICK 1 (Some px100) (Some (num_of_Z 400))
                                    empty_config), w))).
    { rewrite Ha. do 2 f_equal. unfold addBall in Ha. cbn in Ha.
      injection Ha as <- _. unfold Ball.constructor. cbn.
      f_equal; apply Qc_is_canon; reflexivity. }
    rewrite Ha in H. injection H as ->. reflexivity. }
  exists b, w. split; [exact Ha|].
  assert (Hok : world_ok w) by (eapply addBall_ok; [apply initial_world_ok|exact Ha]).
  destruct (drag_follows_pointer Demo.page w 0 b (num_of_Z 110) (num_of_Z 405)
              (num_of_Z 310) (num_of_Z 420) Hok) as (Hs2 & _).
  - rewrite Hs. cbn. repeat constructor. rewrite Hb. reflexivity.
  - rewrite Hs. reflexivity.
  - rewrite Hb. discriminate.
  - rewrite Hb. vm_compute. discriminate.
  - rewrite Hb. vm_compute. discriminate.
  - rewrite Hb. vm_compute. discriminate.
  - rewrite Hb. vm_compute. discriminate.
  - rewrite Hs2, Hs. reflexivity.
Defined.

Lemma set_steps_same (w : World) : set_steps w (steps w) = w.
Proof. destruct w. reflexivity. Qed.

(** X16.  A Read marker cannot be dragged, and no marker can be dragged
    with another button than the left one: the press changes nothing, so
    with no marker being dragged the pointer move that follows changes
    nothing either. *)
Theorem read_marker_not_draggable (pg : Page) (w : World) (ball : nat)
    (button : Z) (cx cy mx my : Qc) :
  Forall (fun b => Ball.isDragging b = false) (steps w) ->
  (button <> 0%Z
   \/ forall b, b ∈ steps w -> Ball.id b = ball -> Ball.type b = READ) ->
  mousedown_on ball button cx cy w = w
  /\ document_onMouseMove pg mx my (mousedown_on ball button cx cy w) = w.
Proof.
  intros Hnone Hcase.
  assert (Hdown : mousedown_on ball button cx cy w = w).
  { unfold mousedown_on.
    assert (Hmap : update_ball ball (Ball_onMouseDown button cx cy) (steps w)
                   = steps w); [|rewrite Hmap; apply set_steps_same].
    unfold update_ball. etransitivity; [|apply list_fmap_id].
    apply list_fmap_ext. intros i b Hb. cbn.
    destruct (decide (Ball.id b = ball)) as [Hid|_]; [|reflexivity].
    unfold Ball_onMouseDown. destruct Hcase as [Hbtn|Hread].
    - apply Z.eqb_neq in Hbtn. rewrite Hbtn. reflexivity.
    - rewrite (bool_decide_eq_true_2 (Ball.type b = READ)).
      + rewrite orb_true_r. reflexivity.
      + apply Hread; [|exact Hid]. apply list_elem_of_lookup. eauto. }
  split; [exact Hdown|]. rewrite Hdown. unfold document_onMouseMove.
  rewrite find_none_dragged by exact Hnone. reflexivity.
Qed.

Lemma read_marker_not_draggable_witness :
  exists b w,
    addBall Demo.page READ empty_config initial_world = Normal (b, w)
    /\ document_onMouseMove Demo.page (num_of_Z 300) (num_of_Z 300)
         (mousedown_on (Ball.id b) 0 (num_of_Z 110) (num_of_Z 405) w) = w.
Proof.
  destruct (addBall_full Demo.page READ empty_config initial_world)
    as (b & w & Ha & Hs & _ & Hty & _).
  exists b, w. split; [exact Ha|].
  apply (read_marker_not_draggable Demo.page w (Ball.id b) 0).
  - rewrite Hs. cbn. repeat constructor.
    unfold addBall in Ha. cbn in Ha. injection Ha as <- _. reflexivity.
  - right. intros b' Hb' _. rewrite Hs in Hb'. cbn in Hb'.
    apply list_elem_of_singleton in Hb'. subst b'. exact Hty.
Defined.

(** ** What the picker and the mouse leave alone *)






(** X18.  Confirming a pick.  With the picker armed for a marker of the
    collection and some element highlighted, a click on an element for
    which the synthesizer returns a selector stores that selector in the
    marker, moves the marker onto what the selector locates, and ends the
    picker.  The marker's key, delay, text and warning stay as they were
    — a warning is not cleared by picking — and the other markers are not
    touched. *)
Theorem pick_confirm (pg : Page) (w : World) (i : nat) (b : Ball.t)
    (e : Element) (sel : string) (hl : nat) :
  world_ok w ->
  steps w !! i = Some b ->
  pickingCallback w = Some (Ball.id b) ->
  highlighted w = Some hl ->
  generateSelector pg (Some e) = Normal sel ->
  exists w' b',
    onPickClick pg (Some e) w = (w', None)
    /\ Ball.locateToElement pg (set_selector sel b) = Normal b'
    /\ steps w' = <[i := b']> (steps w)
    /\ selector (Ball.config b') = Some sel
    /\ saved_fields b' = saved_fields b
    /\ Ball.isWarning b' = Ball.isWarning b
    /\ Ball.warningMessage b' = Ball.warningMessage b
    /\ isPickingElement w' = false
    /\ pickingCallback w' = None.
Proof.
  intros Hok Hi Hcb Hhl Hgen.
  pose proof (lookup_lt_Some _ _ _ Hi) as Hlt.
  destruct (locateToElement_returns pg (set_selector sel b)) as [b' Hloc].
  exists (endPicker (set_steps w (<[i := b']> (steps w)))), b'.
  assert (Hs1 : update_ball (Ball.id b) (set_selector sel) (steps w)
                = <[i := set_selector sel b]> (steps w))
    by (apply update_ball_insert; [apply Hok|exact Hi]).
  assert (Hfind : List.find (fun x => bool_decide (Ball.id x = Ball.id b))
                            (<[i := set_selector sel b]> (steps w))
                  = Some (set_selector sel b)).
  { destruct (List.find _ _) as [x|] eqn:Hf.
    - apply find_some in Hf as [Hin Hid]. apply bool_decide_eq_true in Hid.
      f_equal. apply (same_id_same_ball (<[i := set_selector sel b]> (steps w))).
      + rewrite list_fmap_insert. cbn [Ball.id set_selector].
        rewrite list_insert_id; [apply Hok|].
        rewrite list_lookup_fmap, Hi. reflexivity.
      + apply list_elem_of_In, Hin.
      + apply list_elem_of_lookup. exists i. apply list_lookup_insert_eq, Hlt.
      + exact Hid.
    - exfalso. pose proof (find_none _ _ Hf (set_selector sel b)) as Hn.
      cbn beta in Hn. rewrite bool_decide_eq_true_2 in Hn by reflexivity.
      assert (Hfalse : true = false); [|discriminate].
      apply Hn, list_elem_of_In, list_elem_of_lookup. exists i.
      apply list_lookup_insert_eq, Hlt. }
  destruct (locateToElement_keeps pg _ _ Hloc) as (Hid' & _ & Hc' & Hw' & Hty').
  assert (Hmsg : Ball.warningMessage b' = Ball.warningMessage b).
  { unfold Ball.locateToElement in Hloc.
    destruct (findElement pg _) as [[x|]|err]; cbn [cbind] in Hloc;
      [| |discriminate]; injection Hloc as <-; reflexivity. }
  split.
  - unfold onPickClick. rewrite Hhl, Hcb, Hgen.
    unfold runPickingCallback. cbn [steps set_steps]. rewrite Hs1, Hfind, Hloc.
    rewrite (update_ball_insert (<[i := set_selector sel b]> (steps w)) i
               (set_selector sel b)).
    + rewrite list_insert_insert_eq. reflexivity.
    + rewrite list_fmap_insert. cbn [Ball.id set_selector].
      rewrite list_insert_id; [apply Hok|].
      rewrite list_lookup_fmap, Hi. reflexivity.
    + apply list_lookup_insert_eq, Hlt.
  - split; [exact Hloc|]. split; [reflexivity|].
    split; [rewrite Hc'; reflexivity|].
    split; [unfold saved_fields; rewrite Hc', Hty'; reflexivity|].
    split; [exact Hw'|]. split; [exact Hmsg|]. split; reflexivity.
Qed.

Lemma pick_confirm_witness :
  exists b w w' b',
    addBall Demo.page READ empty_config initial_world = Normal (b, w)
    /\ onPickClick Demo.page (Some Demo.e_prompt)
         (onPickMove Demo.page (Some Demo.e_send) (startPicker (Ball.id b) w))
       = (w', None)
    /\ steps w' = [b']
    /\ selector (Ball.config b') = Some "#prompt-textarea".
Proof.
  destruct (addBall_world Demo.page READ empty_config initial_world)
    as (b & w & Ha & Hs & _).
  assert (Hok : world_ok w) by (eapply addBall_ok; [apply initial_world_ok|exact Ha]).
  assert (Hmv : onPickMove Demo.page (Some Demo.e_send) (startPicker (Ball.id b) w)
                = set_highlighted (startPicker (Ball.id b) w) (Some 2%nat))
    by reflexivity.
  destruct (pick_confirm Demo.page
              (set_highlighted (startPicker (Ball.id b) w) (Some 2%nat))
              0 b Demo.e_prompt "#prompt-textarea" 2)
    as (w' & b' & Hclick & _ & Hsteps & Hsel & _).
  - apply (world_ok_same_markers (startPicker (Ball.id b) w));
      [apply startPicker_ok, Hok|reflexivity..].
  - cbn. rewrite Hs. reflexivity.
  - reflexivity.
  - reflexivity.
  - reflexivity.
  - exists b, w, w', b'. split; [exact Ha|]. rewrite Hmv. split; [exact Hclick|].
    split; [|exact Hsel]. rewrite Hsteps. cbn. rewrite Hs. reflexivity.
Defined.

(** X19.  A pick the synthesizer rejects is not ended.  Start the picker
    for a marker, hover an element that has no id and no test id and whose
    classes give a tag+class candidate the selector engine rejects, and
    click it: the synthesizer raises, the click handler is aborted before
    it ends the picker, and the state is left exactly as it was before the
    click — the new overlay still attached, the picker still armed. *)
Theorem pick_aborted (pg : Page) (w : World) (ball : nat) (e : Element)
    (c err : string) :
  node e <> node (body pg) ->
  el_id e = EmptyString ->
  data_testid e = None ->
  className e = Some c ->
  includes c "wfe-" = false ->
  let classes :=
    take 2 (List.filter (fun k => negb (String.eqb k EmptyString)
                                  && negb (startsWith k "wfe-"))
                        (split_space c)) in
  classes <> [] ->
  querySelectorAll pg (toLowerCase (tagName e) +:+ "." +:+ String.concat "." classes)
  = Throw err ->
  let w1 := onPickMove pg (Some e) (startPicker ball w) in
  onPickClick pg (Some e) w1 = (w1, Some err)
  /\ handle pg (EvPickClick (Some e)) w1 = w1
  /\ overlays w1 = (overlays w ++ [fresh w])%list
  /\ isPickingElement w1 = true
  /\ pickingCallback w1 = Some ball.
Proof.
  intros Hbody Hid Htest Hclass Hinc classes Hne Hq w1.
  assert (Hc : c <> EmptyString).
  { intros ->. apply Hne. reflexivity. }
  pose proof (generateSelector_class_rejected pg e c err Hbody Hid Htest Hclass Hc
                Hne Hq) as Hgen.
  assert (Hw1 : w1 = set_highlighted (startPicker ball w) (Some (node e))).
  { unfold w1, onPickMove. rewrite Hclass, Hinc.
    rewrite bool_decide_eq_false_2 by exact Hbody. reflexivity. }
  assert (H : onPickClick pg (Some e) w1 = (w1, Some err)).
  { unfold onPickClick. rewrite Hw1. cbn [highlighted pickingCallback
      set_highlighted startPicker]. rewrite Hgen. reflexivity. }
  split; [exact H|]. split.
  - cbn [handle]. rewrite H. destruct (bool_decide _); reflexivity.
  - rewrite Hw1. split; [|split; reflexivity].
    apply (startPicker_adds_overlay ball w).
Qed.

Lemma pick_aborted_witness :
  let w := onPickMove Strict.page (Some Strict.e_card) (startPicker 0 initial_world) in
  onPickClick Strict.page (Some Strict.e_card) w = (w, Some "SyntaxError")
  /\ overlays w = [0%nat]
  /\ isPickingElement w = true.
Proof.
  intros w.
  destruct (pick_aborted Strict.page initial_world 0 Strict.e_card "md:flex card"
              "SyntaxError") as (H & _ & Ho & Hp & _).
  - simpl. lia.
  - reflexivity.
  - reflexivity.
  - reflexivity.
  - reflexivity.
  - discriminate.
  - reflexivity.
  - split; [exact H|]. split; [exact Ho|exact Hp].
Defined.

(** ** Export *)

(** X20.  What is exported for a marker.  A Click or Input marker that
    was added onto the element its selector locates is exported with the
    coordinates of the centre of that element's bounding box, rounded to
    the nearest integer, with its lower-cased kind and its sequence
    number, and without a selector; and in every state in which the
    sequence numbers are 1..N, the exported ones are 1..N in order. *)
Theorem export_rounded_centre (pg : Page) (ty : BallType) (cfg : StepConfig)
    (w : World) (e : Element) :
  ty <> READ ->
  truthy (sc_selector_value cfg) = true ->
  findElement pg (sc_selector_value cfg) = Normal (Some e) ->
  (exists b w',
      addBall pg ty cfg w = Normal (b, w')
      /\ let r := getBoundingClientRect e in
         j_x (Ball_toJSON b) = Some (Math_round (left r + width r / two)%Qc)
         /\ j_y (Ball_toJSON b) = Some (Math_round (top r + height r / two)%Qc)
         /\ j_seq (Ball_toJSON b) = S (length (steps w))
         /\ j_type (Ball_toJSON b) = toLowerCase (typeName ty)
         /\ j_selector (Ball_toJSON b) = None)
  /\ (world_ok w -> j_seq <$> exportConfig w = seq 1 (length (steps w))).
Proof.
  intros Hty Ht Hfind. split.
  - unfold addBall. rewrite Ht, Hfind. cbn [cbind].
    replace (length (steps w) + 1)%nat with (S (length (steps w))) by lia.
    eexists _, _. split; [reflexivity|].
    unfold Ball_toJSON, getElementCenter. cbn.
    assert (Hring : forall c : Qc, (c - px14 + px14)%Qc = c) by (intros; ring).
    destruct ty; [|
                  |contradiction]; cbn; rewrite !Hring; repeat split.
  - intros Hok. unfold exportConfig. rewrite <- list_fmap_compose.
    rewrite <- (ok_seq w Hok). apply list_fmap_ext. intros i b _. cbn.
    unfold Ball_toJSON. destruct (Ball.type b); reflexivity.
Qed.

Lemma export_rounded_centre_witness :
  exists b w',
    addBall Demo.page INPUT
      (mkStepConfig None None None (Some (Some "#prompt-textarea")) (Some "input_box"))
      initial_world = Normal (b, w')
    /\ j_x (Ball_toJSON b) = Some 300%Z
    /\ j_y (Ball_toJSON b) = Some 620%Z.
Proof.
  destruct (export_rounded_centre Demo.page INPUT
              (mkStepConfig None None None (Some (Some "#prompt-textarea"))
                 (Some "input_box"))
              initial_world Demo.e_prompt)
    as [(b & w' & Ha & Hx & Hy & _) _].
  - discriminate.
  - reflexivity.
  - reflexivity.
  - exists b, w'. split; [exact Ha|]. split.
    + rewrite Hx. reflexivity.
    + rewrite Hy. reflexivity.
Defined.
